(** * Smart Text Analyzer: a verified model of [analyze_text]

    Source: [task1-smart-text-analyzer/text_analyzer.py].

    The Python function is embedded as a Rocq function over
    - strings as lists of Unicode code points,
    - Python integers as [Z],
    - the [dict] of frequencies as a finite map,
    - raised exceptions as the error branch of a result type,
    - the binary64 quotient and its two-decimal rounding as exact dyadic
      values with round-to-nearest-even. *)

From Stdlib Require Import ZArith QArith Lia List Bool.
From Stdlib Require Import Ascii String.
From stdpp Require Import gmap list fin_maps.

Open Scope Z_scope.

(** ** Strings *)

Module Str.

(** A Python [str] is a sequence of code points. *)
Abbreviation char := N (only parsing).
Abbreviation str := (list N) (only parsing).

(** Literals of the development are written as Rocq strings. *)
Definition of_string (s : String.string) : str :=
  List.map N_of_ascii (list_ascii_of_string s).

(** [len(x)] *)
Definition len {A} (l : list A) : Z := Z.of_nat (length l).

(** Truthiness of a sequence: [if x:] holds when [x] is not empty. *)
Definition truthy {A} (l : list A) : bool :=
  match l with [] => false | _ :: _ => true end.

(** The code points CPython treats as whitespace in [str.split()] and
    [str.strip()]: U+0009..U+000D, U+001C..U+0020, U+0085, U+00A0, U+1680,
    U+2000..U+200A, U+2028, U+2029, U+202F, U+205F, U+3000. *)
Definition isspace (c : char) : bool :=
  ((9 <=? c) && (c <=? 13) || (28 <=? c) && (c <=? 32)
   || (c =? 133) || (c =? 160) || (c =? 5760)
   || (8192 <=? c) && (c <=? 8202)
   || (c =? 8232) || (c =? 8233) || (c =? 8239) || (c =? 8287)
   || (c =? 12288))%N.

(** The argument of [word.strip(...)] in the source, in source order:
    . , ! ? ; : double-quote ( ) [ ] { } *)
Definition punctuation : str :=
  [46; 44; 33; 63; 59; 58; 34; 40; 41; 91; 93; 123; 125]%N.

Definition is_punct (c : char) : bool :=
  existsb (N.eqb c) punctuation.

(** [s.lstrip], [s.rstrip] and [s.strip] for a set of characters given by
    its membership test. *)
Fixpoint lstrip (p : char -> bool) (s : str) : str :=
  match s with
  | [] => []
  | c :: s' => if p c then lstrip p s' else s
  end.

Definition rstrip (p : char -> bool) (s : str) : str :=
  rev (lstrip p (rev s)).

Definition strip (p : char -> bool) (s : str) : str :=
  rstrip p (lstrip p s).

(** [s.split()]: maximal runs of non-whitespace, in order.  [cur] holds the
    characters of the run being read, last one first. *)
Fixpoint split_from (cur : str) (s : str) : list str :=
  match s with
  | [] => if truthy cur then [rev cur] else []
  | c :: s' =>
      if isspace c
      then (if truthy cur then rev cur :: split_from [] s'
            else split_from [] s')
      else split_from (c :: cur) s'
  end.

Definition split (s : str) : list str := split_from [] s.

(** Lower-casing of the ASCII letters; every other code point is kept. *)
Definition ascii_lower_char (c : char) : char :=
  if ((65 <=? c) && (c <=? 90))%N then (c + 32)%N else c.

Definition ascii_lower (s : str) : str := List.map ascii_lower_char s.

Definition is_ascii (s : str) : Prop := Forall (fun c => (c < 128)%N) s.

(** Every raw token is a non-empty run without whitespace. *)
Definition is_token (w : str) : Prop :=
  w <> [] /\ Forall (fun c => isspace c = false) w.

End Str.

(** ** Exceptions *)

Module Py.

(** The exception kinds that the statements of [analyze_text] can raise,
    each with its message. *)
Inductive exn : Type :=
  | TypeError (msg : String.string)
  | ValueError (msg : String.string)
  | ZeroDivisionError (msg : String.string).

Inductive result (A : Type) : Type :=
  | Ok (a : A)
  | Raise (e : exn).
Arguments Ok {A} a.
Arguments Raise {A} e.

Definition bind {A B} (r : result A) (k : A -> result B) : result B :=
  match r with
  | Ok a => k a
  | Raise e => Raise e
  end.

Notation "'do' x <- r ; k" := (bind r (fun x => k))
  (at level 10, x name, r at level 100, k at level 200).

Definition is_type_error {A} (r : result A) : Prop :=
  exists msg, r = Raise (TypeError msg).
Definition is_value_error {A} (r : result A) : Prop :=
  exists msg, r = Raise (ValueError msg).
Definition is_ok {A} (r : result A) : Prop :=
  exists a, r = Ok a.

(** The values a caller can pass: a string, or something that is not one. *)
Inductive object : Type :=
  | PyNone
  | PyBool (b : bool)
  | PyInt (z : Z)
  | PyFloat (q : Q)
  | PyStr (s : list N).

Definition isinstance_str (o : object) : bool :=
  match o with PyStr _ => true | _ => false end.

(** [max(xs)] of integers; CPython raises ValueError on an empty argument. *)
Definition max (xs : list Z) : result Z :=
  match xs with
  | [] => Raise (ValueError "max() arg is an empty sequence")
  | x :: xs' => Ok (fold_left Z.max xs' x)
  end.

(** [sum(xs)] of integers. *)
Definition sum (xs : list Z) : Z := fold_left Z.add xs 0.

(** [list(dict.fromkeys(xs))]: the keys in insertion order; a key that is
    already present keeps its place. *)
Definition fromkeys_step (keys : list (list N)) (k : list N) : list (list N) :=
  if bool_decide (k ∈ keys) then keys else keys ++ [k].

Definition fromkeys (xs : list (list N)) : list (list N) :=
  fold_left fromkeys_step xs [].

End Py.

(** ** Binary64 values *)

Module Float.

(** A finite binary64 value [(-1)^sign * mant * 2^expo].  A result of the
    roundings below has [mant = 0] or [2^52 <= mant < 2^53].  The operands
    of the analyzer are lengths of in-memory sequences, so the exponent
    range of the format is never reached and is not represented. *)
Record float : Type := mk { sign : bool; mant : Z; expo : Z }.

Definition to_Q (x : float) : Q :=
  let v := if 0 <=? expo x
           then inject_Z (mant x * 2 ^ expo x)
           else Qmake (mant x) (Z.to_pos (2 ^ (- expo x))) in
  if sign x then Qopp v else v.

(** Round [num / den] to the nearest integer, ties to even
    ([0 <= num], [0 < den]). *)
Definition rne (num den : Z) : Z :=
  let q := num / den in
  let r := num mod den in
  match 2 * r ?= den with
  | Lt => q
  | Gt => q + 1
  | Eq => if Z.even q then q else q + 1
  end.

(** The binary64 nearest to the rational [n / d] ([0 < n], [0 < d]):
    [e] is the exponent of the binade of [n / d], the significand is
    [n / d] scaled to 53 bits and rounded to nearest even. *)
Definition rnd_pos (n d : Z) : Z * Z :=
  let e0 := Z.log2 n - Z.log2 d in
  let e := if n * 2 ^ Z.max 0 (- e0) <? d * 2 ^ Z.max 0 e0
           then e0 - 1 else e0 in
  let s := 52 - e in
  let m := rne (n * 2 ^ Z.max 0 s) (d * 2 ^ Z.max 0 (- s)) in
  if m =? 2 ^ 53 then (2 ^ 52, e + 1 - 52) else (m, e - 52).

Definition rnd (sg : bool) (n d : Z) : float :=
  if n =? 0 then mk sg 0 0
  else let '(m, e) := rnd_pos n d in mk sg m e.

(** [a / b] on integers: the correctly rounded quotient. *)
Definition truediv (a b : Z) : Py.result float :=
  if b =? 0 then Py.Raise (Py.ZeroDivisionError "division by zero")
  else Py.Ok (rnd (xorb (a <? 0) (b <? 0)) (Z.abs a) (Z.abs b)).

(** [round(x, ndigits)] for [0 <= ndigits]: the exact value of [x] is
    rounded half-even to [ndigits] decimals, and the decimal obtained is
    converted to the nearest binary64. *)
Definition round (x : float) (ndigits : Z) : float :=
  let p := 10 ^ ndigits in
  let k := rne (mant x * 2 ^ Z.max 0 (expo x) * p) (2 ^ Z.max 0 (- expo x)) in
  rnd (sign x) k p.

(** [1.0 <= x], on the representation. *)
Definition at_least_one (x : float) : Prop :=
  sign x = false
  /\ 2 ^ Z.max 0 (- expo x) <= mant x * 2 ^ Z.max 0 (expo x).

(** [L <= x] and [x <= L] for an integer [L], on the representation. *)
Definition at_least (x : float) (L : Z) : Prop :=
  sign x = false
  /\ L * 2 ^ Z.max 0 (- expo x) <= mant x * 2 ^ Z.max 0 (expo x).

Definition at_most (x : float) (L : Z) : Prop :=
  sign x = false
  /\ mant x * 2 ^ Z.max 0 (expo x) <= L * 2 ^ Z.max 0 (- expo x).

End Float.

(** ** The analyzer *)

Module TextAnalyzer.
Import Str Py.

(** The dictionary returned by [analyze_text]. *)
Record AnalysisResult : Type := mkResult {
  word_count : Z;
  average_word_length : Float.float;
  longest_words : list str;
  word_frequency : gmap (list N) Z
}.

(** [sum(d.values())] *)
Definition values_sum (d : gmap (list N) Z) : Z :=
  map_fold (fun _ v acc => v + acc) 0 d.

Section Analyzer.

(** [str.lower] is the interpreter's; the analyzer is modelled for any
    implementation of it. *)
Variable lower : str -> str.

(** Body of the cleaning loop (source lines 43-47). *)
Definition clean_step (cleaned_words : list str) (word : str) : list str :=
  let cleaned := strip is_punct word in
  if truthy cleaned then cleaned_words ++ [lower cleaned] else cleaned_words.

Definition clean_words (words : list str) : list str :=
  fold_left clean_step words [].

(** Body of the counting loop (source lines 67-68). *)
Definition count_step (word_frequency : gmap (list N) Z) (word : str)
  : gmap (list N) Z :=
  <[word := default 0 (word_frequency !! word) + 1]> word_frequency.

Definition count_words (cleaned_words : list str) : gmap (list N) Z :=
  fold_left count_step cleaned_words ∅.

(** [analyze_text] (source lines 12-75).  The branch on the constructor is
    the [isinstance(text, str)] test of line 31. *)
Definition analyze_text (text : object) : result AnalysisResult :=
  match text with
  | PyStr text =>
      (* line 34: if not text or not text.strip() *)
      if negb (truthy text) || negb (truthy (strip isspace text))
      then Raise (ValueError "Input text cannot be empty")
      else
        (* line 39 *)
        let words := split text in
        (* lines 42-47 *)
        let cleaned_words := clean_words words in
        (* line 49: if not cleaned_words *)
        if negb (truthy cleaned_words)
        then Raise (ValueError "Input text contains no valid words")
        else
          (* line 53 *)
          let word_count := len cleaned_words in
          (* lines 56-57 *)
          let total_length := sum (List.map len cleaned_words) in
          do quotient <- Float.truediv total_length word_count;
          let average_word_length := Float.round quotient 2 in
          (* lines 60-63 *)
          do max_length <- max (List.map len cleaned_words);
          let longest_words :=
            List.filter (fun word => len word =? max_length) cleaned_words in
          let longest_words := fromkeys longest_words in
          (* lines 66-68 *)
          let word_frequency := count_words cleaned_words in
          (* lines 70-75 *)
          Ok (mkResult word_count average_word_length
                       longest_words word_frequency)
  | _ =>
      (* line 32 *)
      Raise (TypeError "Input must be a string")
  end.

End Analyzer.

End TextAnalyzer.

(** ** Notions used by the specification *)

Module Notions.
Import Str Py TextAnalyzer.

(** Position of the first occurrence of [w] in [l] ([length l] if none). *)
Fixpoint first_index (w : str) (l : list str) : nat :=
  match l with
  | [] => 0
  | x :: l' => if bool_decide (x = w) then 0 else S (first_index w l')
  end.

Definition differs (x : str) : str -> bool := fun y => negb (bool_decide (y = x)).

(** Number of occurrences of [w] in [l], as a Python integer. *)
Definition occurrences (w : str) (l : list str) : Z :=
  len (List.filter (fun x => bool_decide (x = w)) l).

(** What is known of [str.lower]: it maps an ASCII string to its ASCII
    lower-casing, and a non-empty string to a non-empty one. *)
Definition lowers_ascii (lower : str -> str) : Prop :=
  forall w, is_ascii w -> lower w = ascii_lower w.

Definition keeps_nonempty (lower : str -> str) : Prop :=
  forall w, w <> [] -> lower w <> [].

(** The cleaned tokens of a text (source lines 39-47). *)
Definition cleaned_tokens (lower : str -> str) (t : str) : list str :=
  clean_words lower (split t).

(** [sum(len(k) * v for k, v in d.items())] *)
Definition weighted_length (d : gmap (list N) Z) : Z :=
  map_fold (fun k v acc => len k * v + acc) 0 d.

(** Inputs on which the statements are exercised. *)
Definition sample : object := PyStr (of_string "Don't stop, (don't) STOP!").
Definition scenario_a : object :=
  PyStr (of_string "The quick brown fox jumps over the lazy dog the fox").
Definition hello3 : object := PyStr (of_string "Hello hello HELLO").

Definition result_of (o : result AnalysisResult) : AnalysisResult :=
  match o with
  | Ok r => r
  | Raise _ => mkResult 0 (Float.mk false 0 0) [] ∅
  end.

Definition sample_result : AnalysisResult :=
  result_of (analyze_text ascii_lower sample).

(** The tokens as the specification describes them: split on whitespace,
    trim the punctuation set from both ends, discard what became empty,
    lower-case the rest. *)
Definition kept_tokens (lower : str -> str) (t : str) : list str :=
  List.map lower
    (List.filter (fun w => negb (bool_decide (w = [])))
                 (List.map (strip is_punct) (split t))).

(** A character that [split] keeps and [strip] never removes. *)
Definition is_word_char (c : char) : bool :=
  negb (isspace c) && negb (is_punct c).

(** A raw token survives cleaning when it holds a character outside the
    punctuation set. *)
Definition survives (w : str) : bool :=
  existsb (fun c => negb (is_punct c)) w.

(** [d.get(k, 0)] *)
Definition get0 (d : gmap (list N) Z) (k : str) : Z := default 0 (d !! k).

(** Upper-casing of the ASCII letters. *)
Definition ascii_upper_char (c : char) : char :=
  if ((97 <=? c) && (c <=? 122))%N then (c - 32)%N else c.

End Notions.

(** ** The analyzer as a program over the interpreter's store

    [analyze_text] creates and updates mutable objects: lists it appends
    to and dictionaries it assigns into.  Here the body is written
    statement by statement over a store of such objects, so that what a
    call changes in the store can be stated. *)

Module Machine.
Import Str Py TextAnalyzer.

(** The mutable objects the body creates: lists of strings, the dictionary
    of [dict.fromkeys] (its keys, in insertion order), the dictionary of
    frequencies, and the returned dictionary, whose [longest_words] and
    [word_frequency] entries are references.  Strings, integers and floats
    are immutable and are values. *)
Inductive cell : Type :=
  | CList (items : list (list N))
  | CKeys (keys : list (list N))
  | CFreq (items : gmap (list N) Z)
  | CReturn (word_count : Z) (average_word_length : Float.float)
            (longest_words : nat) (word_frequency : nat).

(** The store maps the addresses of the live mutable objects to their
    current contents. *)
Abbreviation store := (gmap nat cell).

(** An argument or a returned value: an immutable object, or a reference
    to a mutable object of the store (a list or a dictionary). *)
Inductive value : Type :=
  | Imm (o : object)
  | Ref (a : nat).

(** A statement ends normally, raises, or is stuck on a reference that
    holds no object of the expected type. *)
Inductive outcome (A : Type) : Type :=
  | Done (a : A)
  | Raised (e : exn)
  | Stuck.
Arguments Done {A} a.
Arguments Raised {A} e.
Arguments Stuck {A}.

Definition M (A : Type) : Type := store -> outcome A * store.

Definition ret {A} (a : A) : M A := fun h => (Done a, h).
Definition raise {A} (e : exn) : M A := fun h => (Raised e, h).
Definition stuck {A} : M A := fun h => (Stuck, h).

Definition bind {A B} (m : M A) (k : A -> M B) : M B :=
  fun h =>
    match m h with
    | (Done a, h') => k a h'
    | (Raised e, h') => (Raised e, h')
    | (Stuck, h') => (Stuck, h')
    end.

Notation "'run' x <- m ; k" := (bind m (fun x => k))
  (at level 10, x name, m at level 100, k at level 200).
Notation "'exec' m ; k" := (bind m (fun _ => k))
  (at level 10, m at level 100, k at level 200).

Definition lift {A} (r : result A) : M A :=
  match r with
  | Ok a => ret a
  | Raise e => raise e
  end.

(** A new object gets an address that no live object has. *)
Definition alloc (c : cell) : M nat :=
  fun h => let a := fresh (dom h) in (Done a, <[a := c]> h).

Definition load (a : nat) : M cell :=
  fun h =>
    match h !! a with
    | Some c => (Done c, h)
    | None => (Stuck, h)
    end.

Definition write (a : nat) (c : cell) : M unit :=
  fun h => (Done tt, <[a := c]> h).

(** Reading a list object, [xs.append(x)], [d.get(k, default)] and
    [d[k] = v]. *)
Definition list_items (a : nat) : M (list str) :=
  run c <- load a;
  match c with
  | CList items => ret items
  | _ => stuck
  end.

Definition keys_items (a : nat) : M (list str) :=
  run c <- load a;
  match c with
  | CKeys keys => ret keys
  | _ => stuck
  end.

Definition list_append (a : nat) (x : str) : M unit :=
  run items <- list_items a;
  write a (CList (items ++ [x])).

Definition dict_get (a : nat) (k : str) (dflt : Z) : M Z :=
  run c <- load a;
  match c with
  | CFreq items => ret (default dflt (items !! k))
  | _ => stuck
  end.

Definition dict_set (a : nat) (k : str) (v : Z) : M unit :=
  run c <- load a;
  match c with
  | CFreq items => write a (CFreq (<[k := v]> items))
  | _ => stuck
  end.

(** [for x in xs: body] *)
Fixpoint for_each {A} (xs : list A) (body : A -> M unit) : M unit :=
  match xs with
  | [] => ret tt
  | x :: xs' => exec body x; for_each xs' body
  end.

Section Program.
Variable lower : str -> str.

(** [analyze_text], statement by statement (source lines 31-75).  The two
    [for] loops run over the items the list holds when the loop starts;
    neither loop changes the list it runs over. *)
Definition analyze_text_st (text : value) : M value :=
  match text with
  | Imm (PyStr text) =>
      (* line 34 *)
      if negb (truthy text) || negb (truthy (strip isspace text))
      then raise (ValueError "Input text cannot be empty")
      else
        (* line 39 *)
        run words <- alloc (CList (split text));
        (* lines 42-47 *)
        run cleaned_words <- alloc (CList []);
        run words_items <- list_items words;
        exec for_each words_items (fun word =>
               let cleaned := strip is_punct word in
               if truthy cleaned
               then list_append cleaned_words (lower cleaned)
               else ret tt);
        (* line 49 *)
        run cleaned_items <- list_items cleaned_words;
        if negb (truthy cleaned_items)
        then raise (ValueError "Input text contains no valid words")
        else
          (* line 53 *)
          let word_count := len cleaned_items in
          (* lines 56-57 *)
          let total_length := sum (List.map len cleaned_items) in
          run quotient <- lift (Float.truediv total_length word_count);
          let average_word_length := Float.round quotient 2 in
          (* lines 60-63 *)
          run max_length <- lift (max (List.map len cleaned_items));
          run longest_words <-
            alloc (CList (List.filter (fun word => len word =? max_length)
                                      cleaned_items));
          run longest_items <- list_items longest_words;
          run keys <- alloc (CKeys (fromkeys longest_items));
          run keys_list <- keys_items keys;
          run longest_words <- alloc (CList keys_list);
          (* lines 66-68 *)
          run word_frequency <- alloc (CFreq ∅);
          exec for_each cleaned_items (fun word =>
                 run count <- dict_get word_frequency word 0;
                 dict_set word_frequency word (count + 1));
          (* lines 70-75 *)
          run returned <-
            alloc (CReturn word_count average_word_length
                           longest_words word_frequency);
          ret (Ref returned)
  | _ =>
      (* line 32 *)
      raise (TypeError "Input must be a string")
  end.

(** What the caller sees of an outcome: the returned dictionary with its
    list and its dictionary read from the store, or the exception. *)
Definition view (h : store) (o : outcome value) : outcome AnalysisResult :=
  match o with
  | Done (Ref a) =>
      match h !! a with
      | Some (CReturn word_count average longest frequency) =>
          match h !! longest, h !! frequency with
          | Some (CList items), Some (CFreq d) =>
              Done (mkResult word_count average items d)
          | _, _ => Stuck
          end
      | _ => Stuck
      end
  | Done (Imm _) => Stuck
  | Raised e => Raised e
  | Stuck => Stuck
  end.

(** The outcome of the function of [TextAnalyzer] on the same argument; a
    reference is a list or a dictionary, hence not a string. *)
Definition expected (text : value) : outcome AnalysisResult :=
  match text with
  | Imm o =>
      match analyze_text lower o with
      | Ok r => Done r
      | Raise e => Raised e
      end
  | Ref _ => Raised (TypeError "Input must be a string")
  end.

End Program.

(** A store in which the caller already holds a list and two
    dictionaries. *)
Definition sample_store : store :=
  {[ 0%nat := CList [of_string "kept"];
     1%nat := CFreq {[ of_string "kept" := 7 ]};
     5%nat := CKeys [] ]}.

End Machine.

(** ** Facts about the string operations *)

Module StrFacts.
Import Str.

Lemma truthy_true {A} (l : list A) : truthy l = true <-> l <> [].
Proof. destruct l; simpl; split; congruence. Qed.

Lemma truthy_false {A} (l : list A) : truthy l = false <-> l = [].
Proof. destruct l; simpl; split; congruence. Qed.

Lemma len_nonneg {A} (l : list A) : 0 <= len l.
Proof. unfold len. lia. Qed.

Lemma len_pos {A} (l : list A) : l <> [] -> 1 <= len l.
Proof. unfold len. destruct l; simpl; [congruence | lia]. Qed.

Section Strip.
Variable p : char -> bool.

Lemma lstrip_split (s : str) :
  exists pre, s = pre ++ lstrip p s /\ Forall (fun c => p c = true) pre.
Proof.
  induction s as [|c s [pre [E F]]]; simpl.
  - exists []. split; [reflexivity | constructor].
  - destruct (p c) eqn:Hc.
    + exists (c :: pre). split; [simpl; congruence | constructor; assumption].
    + exists []. split; [reflexivity | constructor].
Qed.

Lemma lstrip_head (s : str) c t : lstrip p s = c :: t -> p c = false.
Proof.
  induction s as [|a s IH]; simpl; [discriminate|].
  destruct (p a) eqn:Ha; [exact IH | congruence].
Qed.

Lemma lstrip_all (s : str) :
  Forall (fun c => p c = true) s -> lstrip p s = [].
Proof.
  induction 1 as [|c s Hc _ IH]; simpl; [reflexivity|]. rewrite Hc. exact IH.
Qed.

Lemma strip_split (s : str) :
  exists pre suf,
    s = pre ++ strip p s ++ suf
    /\ Forall (fun c => p c = true) pre
    /\ Forall (fun c => p c = true) suf.
Proof.
  destruct (lstrip_split s) as [pre [E F]].
  destruct (lstrip_split (rev (lstrip p s))) as [suf [E' F']].
  exists pre, (rev suf). repeat split.
  - unfold strip, rstrip. rewrite <- rev_app_distr, <- E', rev_involutive.
    exact E.
  - exact F.
  - apply Forall_rev. exact F'.
Qed.

Lemma strip_nil (s : str) :
  strip p s = [] <-> Forall (fun c => p c = true) s.
Proof.
  split.
  - intros E. destruct (strip_split s) as [pre [suf [Es [F F']]]].
    rewrite E in Es. rewrite Es. simpl. apply Forall_app. split; assumption.
  - intros F. unfold strip, rstrip. rewrite (lstrip_all s F). reflexivity.
Qed.

(** What is left after [strip] neither starts nor ends with a stripped
    character. *)
Lemma strip_head (s : str) c t : strip p s = c :: t -> p c = false.
Proof.
  unfold strip, rstrip. intros E.
  destruct (lstrip p s) as [|a u] eqn:El; [discriminate|].
  pose proof (lstrip_head _ _ _ El) as Ha.
  destruct (lstrip_split (rev (a :: u))) as [pre [Ep _]].
  apply (f_equal (@rev _)) in Ep.
  rewrite rev_involutive, rev_app_distr, E in Ep.
  simpl in Ep. injection Ep as -> _. exact Ha.
Qed.

Lemma strip_last (s : str) c t : strip p s = t ++ [c] -> p c = false.
Proof.
  unfold strip, rstrip. intros E.
  apply (f_equal (@rev _)) in E.
  rewrite rev_involutive, rev_app_distr in E. simpl in E.
  exact (lstrip_head _ _ _ E).
Qed.

End Strip.

(** [split] *)

Lemma split_from_nil cur (s : str) :
  split_from cur s = [] <-> cur = [] /\ Forall (fun c => isspace c = true) s.
Proof.
  revert cur. induction s as [|c s IH]; intros cur; simpl.
  - destruct cur; simpl; split.
    + intros _. split; [reflexivity | constructor].
    + reflexivity.
    + discriminate.
    + intros [E _]. discriminate.
  - destruct (isspace c) eqn:Hc.
    + destruct cur; simpl.
      * rewrite IH. split; intros [E F]; split; try reflexivity.
        -- constructor; assumption.
        -- inversion F; assumption.
      * split; [discriminate | intros [E _]; discriminate].
    + rewrite IH. split.
      * intros [E _]. discriminate.
      * intros [_ F]. inversion F; congruence.
Qed.

Lemma split_nil (s : str) :
  split s = [] <-> Forall (fun c => isspace c = true) s.
Proof.
  unfold split. rewrite split_from_nil. split; [intros [_ F]; exact F | auto].
Qed.

Lemma rev_cons_nonempty {A} (a : A) l : rev (a :: l) <> [].
Proof.
  intros E. apply (f_equal (@length _)) in E.
  rewrite length_rev in E. discriminate.
Qed.

Lemma split_from_tokens cur (s : str) :
  Forall (fun c => isspace c = false) cur ->
  Forall is_token (split_from cur s).
Proof.
  revert cur. induction s as [|c s IH]; intros cur Hcur; simpl.
  - destruct cur as [|a cur]; cbn [truthy]; constructor; [|constructor].
    split; [apply rev_cons_nonempty | apply Forall_rev; exact Hcur].
  - destruct (isspace c) eqn:Hc.
    + destruct cur as [|a cur]; cbn [truthy].
      * apply IH. constructor.
      * constructor; [|apply IH; constructor].
        split; [apply rev_cons_nonempty | apply Forall_rev; exact Hcur].
    + apply IH. constructor; assumption.
Qed.

Lemma split_tokens (s : str) : Forall is_token (split s).
Proof. apply split_from_tokens. constructor. Qed.

Lemma split_from_Forall (P : char -> Prop) cur (s : str) :
  Forall P cur -> Forall P s -> Forall (Forall P) (split_from cur s).
Proof.
  revert cur. induction s as [|c s IH]; intros cur Hcur Hs; simpl.
  - destruct (truthy cur); constructor; [|constructor].
    apply Forall_rev. exact Hcur.
  - inversion Hs as [|? ? Hc Hs']; subst.
    destruct (isspace c).
    + destruct (truthy cur).
      * constructor; [apply Forall_rev; exact Hcur | apply IH; auto].
      * apply IH; auto.
    + apply IH; auto.
Qed.

Lemma split_Forall (P : char -> Prop) (s : str) :
  Forall P s -> Forall (Forall P) (split s).
Proof. apply split_from_Forall. constructor. Qed.

Lemma strip_Forall (P : char -> Prop) p (s : str) :
  Forall P s -> Forall P (strip p s).
Proof.
  intros H. destruct (strip_split p s) as (pre & suf & E & _ & _).
  rewrite E in H. apply Forall_app in H as [_ H].
  apply Forall_app in H as [H _]. exact H.
Qed.

Lemma is_punct_spec (c : char) : is_punct c = true <-> In c punctuation.
Proof.
  unfold is_punct. rewrite existsb_exists. split.
  - intros (x & Hx & E). apply N.eqb_eq in E. subst. exact Hx.
  - intros H. exists c. split; [exact H | apply N.eqb_refl].
Qed.

Lemma ascii_lower_nonempty (w : str) : w <> [] -> ascii_lower w <> [].
Proof. destruct w; simpl; congruence. Qed.

End StrFacts.

(** ** Facts about the built-in functions *)

Module PyFacts.
Import Str Py Notions.

Lemma sum_from (xs : list Z) a : fold_left Z.add xs a = a + sum xs.
Proof.
  unfold sum. revert a. induction xs as [|x xs IH]; intros a; simpl; [lia|].
  rewrite (IH (a + x)). change (0 + x) with x. rewrite (IH x). lia.
Qed.

Lemma sum_cons x (xs : list Z) : sum (x :: xs) = x + sum xs.
Proof. unfold sum at 1. simpl. apply sum_from. Qed.

Lemma sum_app (xs ys : list Z) : sum (xs ++ ys) = sum xs + sum ys.
Proof.
  induction xs as [|x xs IH]; simpl; [reflexivity|].
  rewrite !sum_cons, IH. lia.
Qed.

Lemma sum_lower_bound (xs : list Z) :
  Forall (fun x => 1 <= x) xs -> len xs <= sum xs.
Proof.
  induction 1 as [|x xs Hx _ IH]; [reflexivity|].
  rewrite sum_cons. unfold len in *. simpl length. lia.
Qed.

Lemma fold_max_spec (xs : list Z) a :
  let m := fold_left Z.max xs a in
  (m = a \/ In m xs) /\ a <= m /\ Forall (fun x => x <= m) xs.
Proof.
  revert a. induction xs as [|x xs IH]; intros a; simpl.
  - repeat split; [left; reflexivity | lia | constructor].
  - destruct (IH (Z.max a x)) as [Hin [Hle Hall]]. repeat split.
    + destruct Hin as [E | Hin]; [|right; right; exact Hin].
      rewrite E.
      destruct (Z.max_spec a x) as [[_ E'] | [_ E']].
      * right. left. symmetry. exact E'.
      * left. exact E'.
    + lia.
    + constructor; [lia | exact Hall].
Qed.

Lemma max_spec (xs : list Z) m :
  max xs = Ok m -> In m xs /\ Forall (fun x => x <= m) xs.
Proof.
  destruct xs as [|x xs]; simpl; [discriminate|].
  intros E. injection E as <-.
  destruct (fold_max_spec xs x) as [Hin [Hle Hall]]. split.
  - destruct Hin as [-> | Hin]; [left; reflexivity | right; exact Hin].
  - constructor; assumption.
Qed.

Lemma max_nonempty (xs : list Z) : xs <> [] -> exists m, max xs = Ok m.
Proof. destruct xs; [congruence | simpl; eauto]. Qed.

(** [dict.fromkeys] *)

Lemma fromkeys_step_incl keys k x : x ∈ keys -> x ∈ fromkeys_step keys k.
Proof.
  unfold fromkeys_step. intros Hx. case_bool_decide; [exact Hx|].
  apply elem_of_app. left. exact Hx.
Qed.

Lemma fromkeys_drop_present (xs : list str) keys x :
  x ∈ keys ->
  fold_left fromkeys_step xs keys
  = fold_left fromkeys_step (List.filter (differs x) xs) keys.
Proof.
  revert keys. induction xs as [|y xs IH]; intros keys Hx; simpl; [reflexivity|].
  unfold differs at 1. case_bool_decide as Hy; simpl.
  - subst y. rewrite <- IH by exact Hx.
    unfold fromkeys_step. rewrite bool_decide_eq_true_2 by exact Hx.
    reflexivity.
  - apply IH. apply fromkeys_step_incl. exact Hx.
Qed.

Lemma fromkeys_push_head (xs : list str) keys x :
  x ∉ xs ->
  fold_left fromkeys_step xs (x :: keys)
  = x :: fold_left fromkeys_step xs keys.
Proof.
  revert keys. induction xs as [|y xs IH]; intros keys Hx; simpl; [reflexivity|].
  apply not_elem_of_cons in Hx as [Hne Hx].
  replace (fromkeys_step (x :: keys) y) with (x :: fromkeys_step keys y).
  - apply IH. exact Hx.
  - unfold fromkeys_step.
    destruct (bool_decide (y ∈ keys)) eqn:E.
    + apply bool_decide_eq_true_1 in E.
      rewrite bool_decide_eq_true_2; [reflexivity|].
      apply elem_of_cons. right. exact E.
    + apply bool_decide_eq_false_1 in E.
      rewrite bool_decide_eq_false_2; [reflexivity|].
      intros H. apply elem_of_cons in H as [H | H]; congruence.
Qed.

Lemma differs_filter_notin x (xs : list str) : x ∉ List.filter (differs x) xs.
Proof.
  intros H. apply list_elem_of_In, filter_In in H as [_ H].
  unfold differs in H. rewrite bool_decide_eq_true_2 in H by reflexivity.
  discriminate.
Qed.

Lemma fromkeys_cons x (xs : list str) :
  fromkeys (x :: xs) = x :: fromkeys (List.filter (differs x) xs).
Proof.
  unfold fromkeys. simpl. unfold fromkeys_step at 2. simpl.
  rewrite (fromkeys_drop_present xs [x] x) by (apply elem_of_cons; auto).
  apply fromkeys_push_head, differs_filter_notin.
Qed.

Lemma filter_length_bound {A} (f : A -> bool) (l : list A) :
  (length (List.filter f l) <= length l)%nat.
Proof.
  induction l as [|a l IH]; simpl; [lia|]. destruct (f a); simpl; lia.
Qed.

(** Induction along [fromkeys_cons]. *)
Lemma fromkeys_ind (P : list str -> list str -> Prop) :
  P [] [] ->
  (forall x xs,
      P (List.filter (differs x) xs) (fromkeys (List.filter (differs x) xs)) ->
      P (x :: xs) (x :: fromkeys (List.filter (differs x) xs))) ->
  forall xs, P xs (fromkeys xs).
Proof.
  intros Hnil Hcons xs.
  remember (length xs) as n eqn:En.
  assert (Hn : (length xs <= n)%nat) by lia. clear En.
  revert xs Hn. induction n as [|n IH]; intros xs Hn.
  - destruct xs; [exact Hnil | simpl in Hn; lia].
  - destruct xs as [|x xs]; [exact Hnil|].
    rewrite fromkeys_cons. apply Hcons, IH.
    pose proof (filter_length_bound (differs x) xs). simpl in Hn. lia.
Qed.

Lemma fromkeys_elem (xs : list str) w : w ∈ fromkeys xs <-> w ∈ xs.
Proof.
  revert w. apply (fromkeys_ind (fun xs r => forall w, w ∈ r <-> w ∈ xs)).
  - reflexivity.
  - intros x l IH w. rewrite !elem_of_cons, IH.
    rewrite !list_elem_of_In, filter_In. unfold differs.
    destruct (decide (w = x)) as [->|Hne].
    + tauto.
    + rewrite bool_decide_eq_false_2 by exact Hne. simpl. tauto.
Qed.

Lemma fromkeys_NoDup (xs : list str) : NoDup (fromkeys xs).
Proof.
  apply (fromkeys_ind (fun _ r => NoDup r)).
  - constructor.
  - intros x l IH. constructor; [|exact IH].
    rewrite fromkeys_elem. apply differs_filter_notin.
Qed.

Lemma fromkeys_nonempty (xs : list str) : xs <> [] -> fromkeys xs <> [].
Proof. destruct xs; [congruence|]. rewrite fromkeys_cons. discriminate. Qed.

(** Filtering keeps the relative order of first occurrences. *)
Lemma first_index_filter (f : str -> bool) (l : list str) a b :
  f a = true -> f b = true ->
  (first_index a (List.filter f l) < first_index b (List.filter f l))%nat
  <-> (first_index a l < first_index b l)%nat.
Proof.
  intros Ha Hb. induction l as [|x l IH]; simpl; [reflexivity|].
  destruct (f x) eqn:Hx; simpl.
  - repeat case_bool_decide; subst; try lia.
  - repeat case_bool_decide; subst; try congruence. lia.
Qed.

Lemma fromkeys_order (xs : list str) i j a b :
  fromkeys xs !! i = Some a -> fromkeys xs !! j = Some b -> (i < j)%nat ->
  (first_index a xs < first_index b xs)%nat.
Proof.
  revert i j.
  apply (fromkeys_ind (fun xs r => forall i j,
    r !! i = Some a -> r !! j = Some b -> (i < j)%nat ->
    (first_index a xs < first_index b xs)%nat)).
  - intros i j H. rewrite lookup_nil in H. discriminate.
  - intros x l IH i j Hi Hj Hlt.
    destruct j as [|j]; [lia|]. simpl in Hj.
    assert (Hb : differs x b = true).
    { pose proof (list_elem_of_lookup_2 _ _ _ Hj) as Hin.
      rewrite fromkeys_elem, list_elem_of_In, filter_In in Hin. tauto. }
    assert (Hbx : x <> b).
    { unfold differs in Hb. intros ->.
      rewrite bool_decide_eq_true_2 in Hb by reflexivity. discriminate. }
    simpl. rewrite (bool_decide_eq_false_2 (x = b)) by exact Hbx.
    destruct i as [|i]; simpl in Hi.
    + injection Hi as ->. rewrite bool_decide_eq_true_2 by reflexivity. lia.
    + assert (Ha : differs x a = true).
      { pose proof (list_elem_of_lookup_2 _ _ _ Hi) as Hin.
        rewrite fromkeys_elem, list_elem_of_In, filter_In in Hin. tauto. }
      case_bool_decide; [lia|].
      apply ->Nat.succ_lt_mono.
      apply (first_index_filter (differs x) l a b Ha Hb).
      apply (IH i j); [assumption | assumption | lia].
Qed.

End PyFacts.

(** ** Facts about the two loops of the analyzer *)

Module LoopFacts.
Import Str Py TextAnalyzer Notions StrFacts PyFacts.

Lemma occurrences_nonneg w l : 0 <= occurrences w l.
Proof. apply len_nonneg. Qed.

Lemma occurrences_cons w x l :
  occurrences w (x :: l)
  = (if bool_decide (x = w) then 1 else 0) + occurrences w l.
Proof.
  unfold occurrences, len. simpl.
  case_bool_decide; simpl length; lia.
Qed.

Lemma occurrences_pos w l : 1 <= occurrences w l <-> w ∈ l.
Proof.
  induction l as [|x l IH].
  - unfold occurrences, len. simpl. rewrite elem_of_nil. lia.
  - rewrite occurrences_cons, elem_of_cons.
    pose proof (occurrences_nonneg w l).
    case_bool_decide; subst.
    + split; [auto | lia].
    + rewrite Z.add_0_l, IH. split; [auto|]. intros [E|E]; congruence.
Qed.

Section Cleaning.
Variable lower : str -> str.

(** The cleaning loop appends, for every word in order, the lower-cased
    stripped word when it is not empty. *)
Lemma clean_loop_from (words acc : list str) :
  fold_left (clean_step lower) words acc
  = acc ++ List.map lower
             (List.filter truthy (List.map (strip is_punct) words)).
Proof.
  revert acc. induction words as [|w words IH]; intros acc; simpl.
  - rewrite app_nil_r. reflexivity.
  - rewrite IH. unfold clean_step.
    destruct (truthy (strip is_punct w)); simpl.
    + rewrite <- app_assoc. reflexivity.
    + reflexivity.
Qed.

Lemma clean_words_eq (words : list str) :
  clean_words lower words
  = List.map lower (List.filter truthy (List.map (strip is_punct) words)).
Proof. unfold clean_words. apply clean_loop_from. Qed.

End Cleaning.

(** The counting loop. *)

Lemma values_sum_empty : values_sum ∅ = 0.
Proof. unfold values_sum. apply map_fold_empty. Qed.

Lemma values_sum_insert_fresh (d : gmap (list N) Z) w v :
  d !! w = None -> values_sum (<[w := v]> d) = v + values_sum d.
Proof.
  intros Hw. unfold values_sum.
  rewrite map_fold_insert_L; [reflexivity | | exact Hw].
  intros. lia.
Qed.

Lemma values_sum_delete (d : gmap (list N) Z) w v :
  d !! w = Some v -> values_sum d = v + values_sum (delete w d).
Proof.
  intros Hw. unfold values_sum.
  rewrite (map_fold_delete_L _ _ w v d); [reflexivity | | exact Hw].
  intros. lia.
Qed.

Lemma count_step_sum (d : gmap (list N) Z) w :
  values_sum (count_step d w) = values_sum d + 1.
Proof.
  unfold count_step. destruct (d !! w) as [v|] eqn:Hw; simpl.
  - rewrite <- insert_delete_eq.
    rewrite values_sum_insert_fresh by apply lookup_delete_eq.
    rewrite (values_sum_delete d w v Hw). lia.
  - rewrite values_sum_insert_fresh by exact Hw. lia.
Qed.

Lemma count_loop_sum (ws : list str) (d : gmap (list N) Z) :
  values_sum (fold_left count_step ws d) = values_sum d + len ws.
Proof.
  revert d. induction ws as [|w ws IH]; intros d; simpl.
  - unfold len. simpl. lia.
  - rewrite IH, count_step_sum. unfold len. simpl length. lia.
Qed.

Lemma count_step_lookup (d : gmap (list N) Z) w k :
  count_step d w !! k
  = if bool_decide (w = k) then Some (default 0 (d !! k) + 1) else d !! k.
Proof.
  unfold count_step. case_bool_decide as E.
  - subst k. apply lookup_insert_eq.
  - apply lookup_insert_ne. exact E.
Qed.

(** After the loop every key holds what it held before plus its number of
    occurrences; a key that was absent and does not occur stays absent. *)
Lemma count_loop_lookup (ws : list str) (d : gmap (list N) Z) k :
  fold_left count_step ws d !! k
  = match d !! k with
    | Some v => Some (v + occurrences k ws)
    | None => if occurrences k ws =? 0 then None
              else Some (occurrences k ws)
    end.
Proof.
  revert d. induction ws as [|w ws IH]; intros d.
  - simpl. unfold occurrences, len. simpl.
    destruct (d !! k); [f_equal; lia | reflexivity].
  - simpl fold_left. rewrite IH, count_step_lookup, occurrences_cons.
    pose proof (occurrences_nonneg k ws) as Hk.
    case_bool_decide as E.
    + destruct (d !! k) as [v|]; simpl.
      * f_equal; lia.
      * destruct (Z.eqb_spec (1 + occurrences k ws) 0) as [E0|_]; [lia|].
        f_equal; lia.
    + destruct (d !! k) as [v|]; simpl; reflexivity.
Qed.

Lemma count_words_lookup (ws : list str) k :
  count_words ws !! k
  = if occurrences k ws =? 0 then None else Some (occurrences k ws).
Proof. unfold count_words. rewrite count_loop_lookup, lookup_empty. reflexivity. Qed.

Lemma count_words_sum (ws : list str) : values_sum (count_words ws) = len ws.
Proof. unfold count_words. rewrite count_loop_sum, values_sum_empty. lia. Qed.

End LoopFacts.

(** ** Facts about the binary64 operations *)

Module FloatFacts.
Import Float.

Lemma at_least_one_Q (x : float) : at_least_one x -> (1 <= to_Q x)%Q.
Proof.
  destruct x as [sg m e]. unfold at_least_one, to_Q. simpl.
  intros [-> H]. destruct (Z.leb_spec 0 e) as [He|He].
  - rewrite Z.max_l, Z.max_r in H by lia.
    unfold Qle. simpl. rewrite Z.pow_0_r in H. lia.
  - rewrite Z.max_r, Z.max_l in H by lia.
    assert (0 < 2 ^ (- e)) by (apply Z.pow_pos_nonneg; lia).
    unfold Qle. simpl. rewrite Z2Pos.id by assumption.
    rewrite Z.pow_0_r in H. lia.
Qed.

Lemma rne_lower (num den q : Z) :
  0 < den -> q * den <= num -> q <= rne num den.
Proof.
  intros Hden Hq. unfold rne.
  assert (q <= num / den) by (apply Z.div_le_lower_bound; lia).
  destruct (2 * (num mod den) ?= den); [destruct (Z.even _)|..]; lia.
Qed.

Lemma normal_at_least_one (m e : Z) :
  2 ^ 52 <= m -> - 52 <= e -> at_least_one (mk false m e).
Proof.
  intros Hm He. split; [reflexivity|]. simpl.
  assert (0 < 2 ^ 52) by reflexivity.
  destruct (Z.le_gt_cases 0 e) as [H0|H0].
  - rewrite Z.max_l, Z.max_r by lia. rewrite Z.pow_0_r.
    assert (0 < 2 ^ e) by (apply Z.pow_pos_nonneg; lia). nia.
  - rewrite Z.max_r, Z.max_l by lia. rewrite Z.pow_0_r.
    assert (2 ^ (- e) <= 2 ^ 52) by (apply Z.pow_le_mono_r; lia). lia.
Qed.

(** The binade chosen for a quotient that is at least one. *)
Lemma binade_of_quotient (n d : Z) :
  0 < d -> d <= n ->
  let e0 := Z.log2 n - Z.log2 d in
  let e := if n * 2 ^ Z.max 0 (- e0) <? d * 2 ^ Z.max 0 e0
           then e0 - 1 else e0 in
  0 <= e /\ d * 2 ^ e <= n.
Proof.
  intros Hd Hn e0 e.
  destruct (Z.log2_spec n ltac:(lia)) as [Hn1 Hn2].
  destruct (Z.log2_spec d Hd) as [Hd1 Hd2].
  assert (Hmono : Z.log2 d <= Z.log2 n) by (apply Z.log2_le_mono; lia).
  assert (He0 : 0 <= e0) by (unfold e0; lia).
  subst e. rewrite (Z.max_l 0 (- e0)), (Z.max_r 0 e0) by lia.
  rewrite Z.pow_0_r, Z.mul_1_r.
  destruct (Z.ltb_spec n (d * 2 ^ e0)) as [Hlt|Hge]; [|split; assumption].
  assert (He1 : 1 <= e0).
  { destruct (Z.eq_dec e0 0) as [E|E]; [|lia].
    rewrite E, Z.pow_0_r in Hlt. lia. }
  split; [lia|].
  assert (Hp : 2 ^ Z.log2 n = 2 ^ Z.succ (Z.log2 d) * 2 ^ (e0 - 1)).
  { rewrite <- Z.pow_add_r by (pose proof (Z.log2_nonneg d); lia).
    f_equal. unfold e0. lia. }
  assert (0 < 2 ^ (e0 - 1)) by (apply Z.pow_pos_nonneg; lia).
  nia.
Qed.

Lemma scaled_quotient (n d e : Z) :
  0 < d -> 0 <= e -> d * 2 ^ e <= n ->
  2 ^ 52 * (d * 2 ^ Z.max 0 (- (52 - e))) <= n * 2 ^ Z.max 0 (52 - e).
Proof.
  intros Hd He Hle.
  destruct (Z.le_gt_cases e 52) as [H|H].
  - rewrite Z.max_l, Z.max_r by lia. rewrite Z.pow_0_r.
    assert (Hp : 2 ^ 52 = 2 ^ e * 2 ^ (52 - e)).
    { rewrite <- Z.pow_add_r by lia. f_equal. lia. }
    assert (0 < 2 ^ (52 - e)) by (apply Z.pow_pos_nonneg; lia).
    rewrite Hp. nia.
  - rewrite Z.max_r, Z.max_l by lia. rewrite Z.pow_0_r.
    assert (Hp : 2 ^ e = 2 ^ 52 * 2 ^ (- (52 - e))).
    { rewrite <- Z.pow_add_r by lia. f_equal. lia. }
    rewrite Hp in Hle. lia.
Qed.

Lemma rnd_pos_at_least_one (n d : Z) :
  0 < d -> d <= n ->
  at_least_one (mk false (fst (rnd_pos n d)) (snd (rnd_pos n d))).
Proof.
  intros Hd Hn. unfold rnd_pos.
  destruct (binade_of_quotient n d Hd Hn) as [He Hle].
  set (e := if _ <? _ then _ else _) in *.
  assert (0 < 2 ^ Z.max 0 (- (52 - e))) by (apply Z.pow_pos_nonneg; lia).
  assert (Hm : 2 ^ 52 <= rne (n * 2 ^ Z.max 0 (52 - e))
                            (d * 2 ^ Z.max 0 (- (52 - e)))).
  { apply rne_lower; [nia | apply scaled_quotient; assumption]. }
  destruct (_ =? 2 ^ 53); simpl; apply normal_at_least_one; lia.
Qed.

Lemma rnd_at_least_one (n d : Z) :
  0 < d -> d <= n -> at_least_one (rnd false n d).
Proof.
  intros Hd Hn. unfold rnd.
  destruct (Z.eqb_spec n 0) as [E|_]; [lia|].
  pose proof (rnd_pos_at_least_one n d Hd Hn) as H.
  destruct (rnd_pos n d) as [m e]. exact H.
Qed.

Lemma truediv_at_least_one (a b : Z) :
  0 < b -> b <= a ->
  exists q, truediv a b = Py.Ok q /\ at_least_one q.
Proof.
  intros Hb Ha. unfold truediv.
  destruct (Z.eqb_spec b 0) as [E|_]; [lia|].
  eexists. split; [reflexivity|].
  destruct (Z.ltb_spec a 0); [lia|]. destruct (Z.ltb_spec b 0); [lia|].
  simpl. rewrite !Z.abs_eq by lia. apply rnd_at_least_one; assumption.
Qed.

Lemma truediv_ok (a b : Z) : b <> 0 -> exists q, truediv a b = Py.Ok q.
Proof.
  intros Hb. unfold truediv.
  destruct (Z.eqb_spec b 0) as [E|_]; [congruence | eauto].
Qed.

Lemma round2_at_least_one (x : float) :
  at_least_one x -> at_least_one (round x 2).
Proof.
  intros [Hs Hx]. unfold round. rewrite Hs.
  change (10 ^ 2) with 100.
  assert (0 < 2 ^ Z.max 0 (- expo x)) by (apply Z.pow_pos_nonneg; lia).
  apply rnd_at_least_one; [lia|].
  apply rne_lower; [assumption | lia].
Qed.

End FloatFacts.

(** ** The specification of [analyze_text] *)

Module Spec.
Import Str Py TextAnalyzer Notions StrFacts PyFacts LoopFacts FloatFacts.

Lemma weighted_length_insert_fresh (d : gmap (list N) Z) w v :
  d !! w = None -> weighted_length (<[w := v]> d) = len w * v + weighted_length d.
Proof.
  intros Hw. unfold weighted_length.
  rewrite map_fold_insert_L; [reflexivity | | exact Hw].
  intros. lia.
Qed.

Lemma weighted_length_delete (d : gmap (list N) Z) w v :
  d !! w = Some v -> weighted_length d = len w * v + weighted_length (delete w d).
Proof.
  intros Hw. unfold weighted_length.
  rewrite (map_fold_delete_L _ _ w v d); [reflexivity | | exact Hw].
  intros. lia.
Qed.

Lemma count_step_weighted (d : gmap (list N) Z) w :
  weighted_length (count_step d w) = weighted_length d + len w.
Proof.
  unfold count_step. destruct (d !! w) as [v|] eqn:Hw; simpl.
  - rewrite <- insert_delete_eq.
    rewrite weighted_length_insert_fresh by apply lookup_delete_eq.
    rewrite (weighted_length_delete d w v Hw). lia.
  - rewrite weighted_length_insert_fresh by exact Hw. lia.
Qed.

Lemma count_words_weighted (ws : list str) :
  weighted_length (count_words ws) = sum (List.map len ws).
Proof.
  unfold count_words.
  assert (G : forall d, weighted_length (fold_left count_step ws d)
                        = weighted_length d + sum (List.map len ws)).
  { induction ws as [|w ws IH]; intros d; simpl.
    - unfold sum. simpl. lia.
    - rewrite IH, count_step_weighted, sum_cons. lia. }
  rewrite G. unfold weighted_length. rewrite map_fold_empty. lia.
Qed.

Section Claims.
Variable lower : str -> str.

(** A successful call went through every statement of the body. *)
Lemma analyze_text_ok (text : object) (r : AnalysisResult) :
  analyze_text lower text = Ok r ->
  exists t q m,
    text = PyStr t
    /\ cleaned_tokens lower t <> []
    /\ Float.truediv (sum (List.map len (cleaned_tokens lower t)))
                     (len (cleaned_tokens lower t)) = Ok q
    /\ max (List.map len (cleaned_tokens lower t)) = Ok m
    /\ r = mkResult
             (len (cleaned_tokens lower t))
             (Float.round q 2)
             (fromkeys (List.filter (fun word => len word =? m)
                                    (cleaned_tokens lower t)))
             (count_words (cleaned_tokens lower t)).
Proof.
  unfold analyze_text, cleaned_tokens. destruct text as [| | | |t]; try discriminate.
  destruct (negb (truthy t) || negb (truthy (strip isspace t)));
    [discriminate|].
  destruct (truthy (clean_words lower (split t))) eqn:Hc; [|discriminate].
  simpl negb. cbv iota.
  destruct (Float.truediv _ _) as [q|] eqn:Hq; [|discriminate].
  destruct (max _) as [m|] eqn:Hm; [|discriminate].
  simpl. intros E. injection E as <-.
  exists t, q, m. repeat split; try assumption.
  apply truthy_true. exact Hc.
Qed.

(** C1. On success the frequencies add up to the word count:
    [sum(word_frequency.values()) == word_count]. *)
Theorem frequency_sum_is_word_count (text : object) (r : AnalysisResult) :
  analyze_text lower text = Ok r ->
  values_sum (word_frequency r) = word_count r.
Proof.
  intros H. destruct (analyze_text_ok text r H) as (t & q & m & _ & _ & _ & _ & ->).
  simpl. apply count_words_sum.
Qed.

(** The keys of the returned frequencies are the cleaned tokens. *)
Lemma frequency_keys_of (text : object) (r : AnalysisResult) :
  analyze_text lower text = Ok r ->
  exists t, text = PyStr t
    /\ forall w, is_Some (word_frequency r !! w) <-> w ∈ cleaned_tokens lower t.
Proof.
  intros H. destruct (analyze_text_ok text r H) as (t & q & m & -> & _ & _ & _ & ->).
  exists t. split; [reflexivity|]. simpl.
  intros w. rewrite count_words_lookup, <- occurrences_pos.
  pose proof (occurrences_nonneg w (cleaned_tokens lower t)).
  destruct (Z.eqb_spec (occurrences w (cleaned_tokens lower t)) 0) as [E|E].
  - split; [intros [v Hv]; discriminate | lia].
  - split; [lia | eauto].
Qed.

(** C9. On success the keys of [word_frequency] are exactly the cleaned
    tokens, each mapped to its number of occurrences, which is at least 1;
    and every longest word is a key. *)
Theorem frequency_keys (text : object) (r : AnalysisResult) :
  analyze_text lower text = Ok r ->
  exists t, text = PyStr t
    /\ (forall w, is_Some (word_frequency r !! w) <-> w ∈ cleaned_tokens lower t)
    /\ (forall w v, word_frequency r !! w = Some v ->
                    v = occurrences w (cleaned_tokens lower t) /\ 1 <= v)
    /\ (forall w, w ∈ longest_words r -> is_Some (word_frequency r !! w)).
Proof.
  intros H. destruct (analyze_text_ok text r H) as (t & q & m & -> & _ & _ & _ & ->).
  destruct (frequency_keys_of _ _ H) as (t' & Et & Hkeys).
  injection Et as <-. exists t. simpl in *.
  split; [reflexivity|]. split; [exact Hkeys|]. split.
  - intros w v Hv. rewrite count_words_lookup in Hv.
    pose proof (proj2 (occurrences_pos w (cleaned_tokens lower t))) as Hpos.
    pose proof (occurrences_nonneg w (cleaned_tokens lower t)).
    destruct (Z.eqb_spec (occurrences w (cleaned_tokens lower t)) 0);
      [discriminate|]. injection Hv as <-. split; [reflexivity | lia].
  - intros w Hw. apply Hkeys.
    rewrite fromkeys_elem, list_elem_of_In, filter_In in Hw.
    apply list_elem_of_In. tauto.
Qed.

(** C2. On success [longest_words] is not empty, has no duplicates, holds
    exactly the cleaned tokens whose length is the maximum token length, and
    lists them in the order of their first appearance among the cleaned
    tokens. *)
Theorem longest_words_spec (text : object) (r : AnalysisResult) :
  analyze_text lower text = Ok r ->
  exists t m, text = PyStr t
    /\ (exists w, w ∈ cleaned_tokens lower t /\ len w = m)
    /\ (forall w, w ∈ cleaned_tokens lower t -> len w <= m)
    /\ (forall w, w ∈ longest_words r
                  <-> w ∈ cleaned_tokens lower t /\ len w = m)
    /\ NoDup (longest_words r)
    /\ (forall i j a b,
          longest_words r !! i = Some a -> longest_words r !! j = Some b ->
          (i < j)%nat ->
          (first_index a (cleaned_tokens lower t)
           < first_index b (cleaned_tokens lower t))%nat)
    /\ longest_words r <> [].
Proof.
  intros H. destruct (analyze_text_ok text r H) as (t & q & m & -> & _ & _ & Hm & ->).
  exists t, m. simpl.
  destruct (max_spec _ _ Hm) as [Hin Hall].
  apply in_map_iff in Hin as (w0 & Hw0 & Hin0).
  assert (Hmem : forall w,
    w ∈ fromkeys (List.filter (fun word => len word =? m) (cleaned_tokens lower t))
    <-> w ∈ cleaned_tokens lower t /\ len w = m).
  { intros w. rewrite fromkeys_elem, !list_elem_of_In, filter_In, Z.eqb_eq.
    reflexivity. }
  split; [reflexivity|]. split; [|split; [|split; [|split; [|split]]]].
  - exists w0. split; [apply list_elem_of_In; exact Hin0 | exact Hw0].
  - intros w Hw. rewrite List.Forall_forall in Hall. apply Hall.
    apply list_elem_of_In in Hw. apply in_map. exact Hw.
  - exact Hmem.
  - apply fromkeys_NoDup.
  - intros i j a b Hi Hj Hlt.
    pose proof (proj1 (Hmem a) (list_elem_of_lookup_2 _ _ _ Hi)) as [_ Ha].
    pose proof (proj1 (Hmem b) (list_elem_of_lookup_2 _ _ _ Hj)) as [_ Hb].
    apply (first_index_filter (fun word => len word =? m)
                              (cleaned_tokens lower t) a b).
    + apply Z.eqb_eq. exact Ha.
    + apply Z.eqb_eq. exact Hb.
    + exact (fromkeys_order _ i j a b Hi Hj Hlt).
  - apply fromkeys_nonempty. intros E.
    assert (Hf : In w0 (List.filter (fun word => len word =? m)
                                    (cleaned_tokens lower t))).
    { apply filter_In. split; [exact Hin0 | apply Z.eqb_eq; exact Hw0]. }
    rewrite E in Hf. exact Hf.
Qed.

(** C3. On success [average_word_length] is [round(total / word_count, 2)]
    where [total] is the sum of the lengths of the cleaned tokens, and
    [total] is recovered from the returned frequencies as the sum of
    [len(key) * count]. *)
Theorem average_word_length_spec (text : object) (r : AnalysisResult) :
  analyze_text lower text = Ok r ->
  exists t q, text = PyStr t
    /\ weighted_length (word_frequency r)
       = sum (List.map len (cleaned_tokens lower t))
    /\ Float.truediv (weighted_length (word_frequency r)) (word_count r) = Ok q
    /\ average_word_length r = Float.round q 2.
Proof.
  intros H. destruct (analyze_text_ok text r H) as (t & q & m & -> & _ & Hq & _ & ->).
  exists t, q. simpl. rewrite count_words_weighted.
  repeat split. exact Hq.
Qed.

(** C10. On success every cleaned token has at least one character, so
    [word_count >= 1] and [average_word_length >= 1.0]. *)
Theorem count_and_average_at_least_one (text : object) (r : AnalysisResult) :
  keeps_nonempty lower ->
  analyze_text lower text = Ok r ->
  1 <= word_count r /\ (1 <= Float.to_Q (average_word_length r))%Q.
Proof.
  intros Hlow H.
  destruct (analyze_text_ok text r H) as (t & q & m & -> & Hne & Hq & _ & ->).
  simpl. pose proof (len_pos _ Hne) as Hcount. split; [exact Hcount|].
  assert (Hlen : Forall (fun x => 1 <= x) (List.map len (cleaned_tokens lower t))).
  { unfold cleaned_tokens. rewrite clean_words_eq.
    apply Forall_map, Forall_map, List.Forall_forall.
    intros w Hw. apply filter_In in Hw as [_ Hw].
    apply len_pos, Hlow, truthy_true, Hw. }
  pose proof (sum_lower_bound _ Hlen) as Htotal.
  unfold len at 1 in Htotal. rewrite length_map in Htotal.
  fold (len (cleaned_tokens lower t)) in Htotal.
  assert (Hpos : 0 < len (cleaned_tokens lower t)) by lia.
  destruct (truediv_at_least_one _ _ Hpos Htotal) as (q' & Hq' & Hone).
  rewrite Hq in Hq'. injection Hq' as <-.
  apply at_least_one_Q, round2_at_least_one, Hone.
Qed.

(** The three outcomes of a call on a string. *)
Lemma analyze_text_str (t : str) :
  (Forall (fun c => isspace c = true) t
   /\ analyze_text lower (PyStr t)
      = Raise (ValueError "Input text cannot be empty"))
  \/ (~ Forall (fun c => isspace c = true) t
      /\ cleaned_tokens lower t = []
      /\ analyze_text lower (PyStr t)
         = Raise (ValueError "Input text contains no valid words"))
  \/ (~ Forall (fun c => isspace c = true) t
      /\ cleaned_tokens lower t <> []
      /\ exists r, analyze_text lower (PyStr t) = Ok r).
Proof.
  unfold analyze_text. fold (cleaned_tokens lower t).
  destruct (truthy (strip isspace t)) eqn:Hs.
  - assert (Hns : ~ Forall (fun c => isspace c = true) t).
    { intros F. apply strip_nil in F. rewrite F in Hs. discriminate. }
    assert (Ht : truthy t = true).
    { destruct t; [exfalso; apply Hns; constructor | reflexivity]. }
    rewrite Ht. simpl.
    destruct (truthy (cleaned_tokens lower t)) eqn:Hc; simpl.
    + right. right. apply truthy_true in Hc.
      split; [exact Hns|]. split; [exact Hc|].
      destruct (truediv_ok (sum (List.map len (cleaned_tokens lower t)))
                           (len (cleaned_tokens lower t))) as [q Hq].
      { pose proof (len_pos _ Hc). lia. }
      destruct (max_nonempty (List.map len (cleaned_tokens lower t))) as [m Hm].
      { destruct (cleaned_tokens lower t); [congruence | discriminate]. }
      rewrite Hq, Hm. simpl. eauto.
    + right. left. apply truthy_false in Hc. auto.
  - left. apply truthy_false, strip_nil in Hs. split; [exact Hs|].
    rewrite orb_true_r. reflexivity.
Qed.

(** C4. [analyze_text] raises TypeError exactly when its argument is not a
    string, and ValueError exactly when it is a string that is empty, only
    whitespace, or leaves no token after cleaning; it raises nothing else,
    and a call that raises returns no result. *)
Theorem error_cases (text : object) :
  (is_type_error (analyze_text lower text) <-> isinstance_str text = false)
  /\ (is_value_error (analyze_text lower text)
      <-> exists t, text = PyStr t
            /\ (t = [] \/ Forall (fun c => isspace c = true) t
                \/ cleaned_tokens lower t = []))
  /\ (is_ok (analyze_text lower text)
      \/ is_type_error (analyze_text lower text)
      \/ is_value_error (analyze_text lower text))
  /\ (is_type_error (analyze_text lower text)
      \/ is_value_error (analyze_text lower text)
      -> ~ is_ok (analyze_text lower text)).
Proof.
  unfold is_type_error, is_value_error, is_ok.
  destruct text as [| b | z | q | t];
    try (simpl; split; [split; [reflexivity | eauto] |];
         split; [split; [intros [? ?]; discriminate
                        | intros (? & ? & _); discriminate] |];
         split; [right; left; eauto |];
         intros _ [? ?]; discriminate).
  destruct (analyze_text_str t) as [[Hs E] | [(Hs & Hc & E) | (Hs & Hc & r & E)]];
    rewrite E; simpl.
  - split; [split; [intros [? ?]; discriminate | discriminate] |].
    split; [split; [intros _; exists t; auto | eauto] |].
    split; [right; right; eauto |].
    intros _ [? ?]; discriminate.
  - split; [split; [intros [? ?]; discriminate | discriminate] |].
    split; [split; [intros _; exists t; auto | eauto] |].
    split; [right; right; eauto |].
    intros _ [? ?]; discriminate.
  - split; [split; [intros [? ?]; discriminate | discriminate] |].
    split.
    { split; [intros [? ?]; discriminate|].
      intros (t' & Et & Hcase). injection Et as <-.
      destruct Hcase as [E0 | [F | Hc']].
      - exfalso. apply Hs. rewrite E0. constructor.
      - contradiction.
      - contradiction. }
    split; [left; eauto |].
    intros [[? ?] | [? ?]]; discriminate.
Qed.

(** The cleaning loop computes the tokens of the specification. *)
Lemma cleaned_tokens_kept (t : str) :
  cleaned_tokens lower t = kept_tokens lower t.
Proof.
  unfold cleaned_tokens, kept_tokens. rewrite clean_words_eq. f_equal.
  apply filter_ext. intros [|a w]; reflexivity.
Qed.

Lemma kept_tokens_count (t : str) :
  len (kept_tokens lower t)
  = len (split t)
    - len (List.filter (fun w => bool_decide (strip is_punct w = [])) (split t)).
Proof.
  unfold kept_tokens, len. rewrite length_map.
  induction (split t) as [|w ws IH]; simpl; [reflexivity|].
  case_bool_decide; simpl; lia.
Qed.

(** C5. Cleaning a raw token removes a run of characters of the fixed set
    from its start and a run from its end and nothing else, what is kept
    neither starts nor ends with such a character, and the cleaned tokens
    are the lower-cased kept parts of the words whose kept part is not
    empty, in order.  Every statistic that [analyze_text] returns is
    computed from these tokens alone: a raw token that is empty after
    trimming is not counted in [word_count], adds nothing to the average,
    and is neither a key of [word_frequency] nor a longest word. *)
Theorem cleaning_spec :
  (forall w : str,
      exists pre suf,
        w = pre ++ strip is_punct w ++ suf
        /\ Forall (fun c => In c punctuation) pre
        /\ Forall (fun c => In c punctuation) suf)
  /\ (forall (w : str) c rest,
        strip is_punct w = c :: rest -> ~ In c punctuation)
  /\ (forall (w : str) c rest,
        strip is_punct w = rest ++ [c] -> ~ In c punctuation)
  /\ (forall words : list str,
        clean_words lower words
        = List.map lower
            (List.filter (fun w => negb (bool_decide (w = [])))
                         (List.map (strip is_punct) words)))
  /\ (forall (text : object) (r : AnalysisResult),
        analyze_text lower text = Ok r ->
        exists t, text = PyStr t
          /\ word_count r = len (kept_tokens lower t)
          /\ word_count r
             = len (split t)
               - len (List.filter
                        (fun w => bool_decide (strip is_punct w = []))
                        (split t))
          /\ (exists q,
                Float.truediv (sum (List.map len (kept_tokens lower t)))
                              (len (kept_tokens lower t)) = Ok q
                /\ average_word_length r = Float.round q 2)
          /\ (forall w, w ∈ longest_words r
                        <-> w ∈ kept_tokens lower t
                            /\ forall w', w' ∈ kept_tokens lower t ->
                                          len w' <= len w)
          /\ (forall k, is_Some (word_frequency r !! k)
                        <-> k ∈ kept_tokens lower t)
          /\ (forall k, get0 (word_frequency r) k
                        = occurrences k (kept_tokens lower t))).
Proof.
  split; [|split; [|split; [|split]]].
  - intros w. destruct (strip_split is_punct w) as (pre & suf & E & F1 & F2).
    exists pre, suf. split; [exact E|].
    split; eapply Forall_impl; eauto; intros c Hc; apply is_punct_spec, Hc.
  - intros w c rest E Hc. apply is_punct_spec in Hc.
    rewrite (strip_head _ _ _ _ E) in Hc. discriminate.
  - intros w c rest E Hc. apply is_punct_spec in Hc.
    rewrite (strip_last _ _ _ _ E) in Hc. discriminate.
  - intros words. rewrite clean_words_eq. f_equal.
    apply filter_ext. intros [|a w]; reflexivity.
  - intros text r H.
    destruct (analyze_text_ok text r H) as (t & q & m & -> & _ & Hq & Hm & ->).
    exists t. rewrite cleaned_tokens_kept in *.
    cbn [word_count average_word_length longest_words word_frequency].
    split; [reflexivity|]. split; [reflexivity|].
    split; [apply kept_tokens_count|].
    split; [exists q; split; [exact Hq | reflexivity]|].
    destruct (max_spec _ _ Hm) as [Hin Hall].
    rewrite List.Forall_forall in Hall.
    apply in_map_iff in Hin as (w0 & Hw0 & Hin0).
    split; [|split].
    + intros w. rewrite fromkeys_elem, !list_elem_of_In, filter_In, Z.eqb_eq.
      split.
      * intros [Hw Hl]. split; [exact Hw|]. intros w' Hw'.
        rewrite Hl. apply Hall, in_map. apply list_elem_of_In, Hw'.
      * intros [Hw Hmax]. split; [exact Hw|].
        pose proof (Hall (len w) (in_map len _ _ Hw)).
        pose proof (Hmax w0 (proj2 (list_elem_of_In _ _) Hin0)). lia.
    + intros k. rewrite count_words_lookup, <- occurrences_pos.
      pose proof (occurrences_nonneg k (kept_tokens lower t)).
      destruct (Z.eqb_spec (occurrences k (kept_tokens lower t)) 0) as [E|E].
      * split; [intros [v Hv]; discriminate | lia].
      * split; [lia | eauto].
    + intros k. unfold get0. rewrite count_words_lookup.
      destruct (Z.eqb_spec (occurrences k (kept_tokens lower t)) 0) as [E|_];
        simpl; congruence.
Qed.

(** On ASCII text only the ASCII behaviour of [str.lower] matters. *)
Lemma clean_words_ascii (words : list str) :
  lowers_ascii lower -> Forall is_ascii words ->
  clean_words lower words = clean_words ascii_lower words.
Proof.
  intros Hlow Hw. rewrite !clean_words_eq. apply map_ext_in.
  intros w Hin. apply Hlow.
  apply filter_In in Hin as [Hin _]. apply in_map_iff in Hin as (w0 & <- & Hin).
  rewrite List.Forall_forall in Hw. apply strip_Forall, Hw, Hin.
Qed.

Lemma analyze_text_ascii (t : str) :
  lowers_ascii lower -> is_ascii t ->
  analyze_text lower (PyStr t) = analyze_text ascii_lower (PyStr t).
Proof.
  intros Hlow Ht. unfold analyze_text.
  rewrite (clean_words_ascii (split t) Hlow (split_Forall _ t Ht)).
  reflexivity.
Qed.

(** C6, as the code has it. For the text
    [The quick brown fox jumps over the lazy dog the fox] the call returns
    [word_count = 11], a [longest_words] holding [quick], [brown] and
    [jumps], [word_frequency["the"] = 3] and [word_frequency["fox"] = 2]. *)
Theorem scenario_a_outcome :
  lowers_ascii lower ->
  exists r, analyze_text lower scenario_a = Ok r
    /\ word_count r = 11
    /\ (of_string "quick" ∈ longest_words r
        /\ of_string "brown" ∈ longest_words r
        /\ of_string "jumps" ∈ longest_words r)
    /\ word_frequency r !! of_string "the" = Some 3
    /\ word_frequency r !! of_string "fox" = Some 2.
Proof.
  intros Hlow. unfold scenario_a.
  rewrite (analyze_text_ascii _ Hlow) by (vm_compute; repeat constructor).
  eexists. split; [vm_compute; reflexivity|].
  split; [reflexivity|]. split.
  - cbn [longest_words]. rewrite !list_elem_of_In. simpl. tauto.
  - split; vm_compute; reflexivity.
Qed.

(** C7. Tokens are lower-cased before they are counted: every key of
    [word_frequency] is a lower-cased string, and for [Hello hello HELLO]
    the frequencies are [{hello: 3}]. *)
Theorem case_insensitive_counting :
  lowers_ascii lower ->
  (forall text r k,
      analyze_text lower text = Ok r -> is_Some (word_frequency r !! k) ->
      exists w, k = lower w)
  /\ (exists r, analyze_text lower hello3 = Ok r
               /\ word_frequency r = {[ of_string "hello" := 3 ]}).
Proof.
  intros Hlow. split.
  - intros text r k H Hk.
    destruct (frequency_keys_of text r H) as (t & Et & Hkeys).
    apply Hkeys in Hk. unfold cleaned_tokens in Hk.
    rewrite clean_words_eq in Hk.
    apply list_elem_of_In, in_map_iff in Hk as (w & E & _). eauto.
  - unfold hello3.
    rewrite (analyze_text_ascii _ Hlow) by (vm_compute; repeat constructor).
    eexists. split; vm_compute; reflexivity.
Qed.

End Claims.

(** *** The statements on concrete inputs *)

Lemma ascii_lower_lowers_ascii : lowers_ascii ascii_lower.
Proof. intros w _. reflexivity. Qed.

Lemma ascii_lower_keeps_nonempty : keeps_nonempty ascii_lower.
Proof. intros w. apply ascii_lower_nonempty. Qed.

(** C6, as the specification words it, fails: [the] occurs three times in
    the text (once capitalised), not twice. *)
Lemma scenario_a_the_is_not_two :
  ~ (forall lower, lowers_ascii lower ->
       exists r, analyze_text lower scenario_a = Ok r
         /\ word_count r = 11
         /\ (of_string "quick" ∈ longest_words r
             /\ of_string "brown" ∈ longest_words r
             /\ of_string "jumps" ∈ longest_words r)
         /\ word_frequency r !! of_string "the" = Some 2
         /\ word_frequency r !! of_string "fox" = Some 2).
Proof.
  intros H.
  destruct (H ascii_lower ascii_lower_lowers_ascii) as (r & E & _ & _ & Hthe & _).
  vm_compute in E. injection E as <-.
  vm_compute in Hthe. discriminate.
Qed.

Lemma sample_succeeds : analyze_text ascii_lower sample = Ok sample_result.
Proof. vm_compute. reflexivity. Qed.

Lemma frequency_sum_is_word_count_witness :
  analyze_text ascii_lower sample = Ok sample_result
  /\ values_sum (word_frequency sample_result) = word_count sample_result.
Proof.
  split; [vm_compute; reflexivity|].
  apply (frequency_sum_is_word_count ascii_lower sample).
  vm_compute. reflexivity.
Defined.

Lemma longest_words_spec_witness :
  analyze_text ascii_lower sample = Ok sample_result
  /\ NoDup (longest_words sample_result)
  /\ longest_words sample_result <> [].
Proof.
  split; [vm_compute; reflexivity|].
  destruct (longest_words_spec ascii_lower sample sample_result)
    as (t & m & _ & _ & _ & _ & Hnd & _ & Hne).
  - vm_compute. reflexivity.
  - split; assumption.
Defined.

Lemma average_word_length_spec_witness :
  analyze_text ascii_lower sample = Ok sample_result
  /\ exists q,
       Float.truediv (weighted_length (word_frequency sample_result))
                     (word_count sample_result) = Ok q
       /\ average_word_length sample_result = Float.round q 2.
Proof.
  split; [vm_compute; reflexivity|].
  destruct (average_word_length_spec ascii_lower sample sample_result)
    as (t & q & _ & _ & Hq & Hr).
  - vm_compute. reflexivity.
  - exists q. split; assumption.
Defined.

Lemma error_cases_witness :
  is_type_error (analyze_text ascii_lower PyNone)
  /\ is_value_error (analyze_text ascii_lower (PyStr (of_string "...")))
  /\ ~ is_value_error (analyze_text ascii_lower sample).
Proof.
  split; [|split].
  - apply (proj1 (error_cases ascii_lower PyNone)). reflexivity.
  - apply (proj1 (proj2 (error_cases ascii_lower (PyStr (of_string "..."))))).
    eexists. split; [reflexivity|]. right. right. vm_compute. reflexivity.
  - intros H.
    apply (proj2 (proj2 (proj2 (error_cases ascii_lower sample)))).
    + right. exact H.
    + exists sample_result. vm_compute. reflexivity.
Defined.

Lemma cleaning_spec_witness :
  exists r,
    analyze_text ascii_lower (PyStr (of_string "(Don't) ?! STOP.")) = Ok r
    /\ word_count r = 3 - 1.
Proof.
  exists (result_of (analyze_text ascii_lower (PyStr (of_string "(Don't) ?! STOP.")))).
  split; [vm_compute; reflexivity|].
  destruct (proj2 (proj2 (proj2 (proj2 (cleaning_spec ascii_lower))))
              (PyStr (of_string "(Don't) ?! STOP."))
              (result_of (analyze_text ascii_lower
                            (PyStr (of_string "(Don't) ?! STOP.")))))
    as (t & Et & _ & Hc & _).
  - vm_compute. reflexivity.
  - injection Et as <-. rewrite Hc. vm_compute. reflexivity.
Defined.

Lemma scenario_a_outcome_witness :
  exists r, analyze_text ascii_lower scenario_a = Ok r
    /\ word_frequency r !! of_string "the" = Some 3.
Proof.
  destruct (scenario_a_outcome ascii_lower) as (r & E & _ & _ & Hthe & _).
  - intros w _. reflexivity.
  - exists r. split; assumption.
Defined.

Lemma case_insensitive_counting_witness :
  exists r, analyze_text ascii_lower hello3 = Ok r
    /\ word_frequency r = {[ of_string "hello" := 3 ]}.
Proof.
  apply (case_insensitive_counting ascii_lower).
  intros w _. reflexivity.
Defined.

Lemma frequency_keys_witness :
  analyze_text ascii_lower sample = Ok sample_result
  /\ forall w, w ∈ longest_words sample_result ->
               is_Some (word_frequency sample_result !! w).
Proof.
  split; [vm_compute; reflexivity|].
  destruct (frequency_keys ascii_lower sample sample_result)
    as (t & _ & _ & _ & Hl).
  - vm_compute. reflexivity.
  - exact Hl.
Defined.

Lemma count_and_average_at_least_one_witness :
  analyze_text ascii_lower sample = Ok sample_result
  /\ 1 <= word_count sample_result
  /\ (1 <= Float.to_Q (average_word_length sample_result))%Q.
Proof.
  split; [vm_compute; reflexivity|].
  apply (count_and_average_at_least_one ascii_lower sample).
  - intros w. destruct w; simpl; congruence.
  - vm_compute. reflexivity.
Defined.

(** *** Further scenarios of the specification *)

Example scenario_b :
  exists r, analyze_text ascii_lower (PyStr (of_string "cat dog bat")) = Ok r
    /\ longest_words r = [of_string "cat"; of_string "dog"; of_string "bat"].
Proof. eexists. split; vm_compute; reflexivity. Qed.

Example scenario_c :
  cleaned_tokens ascii_lower (of_string "Hello, world! How are you?")
  = [of_string "hello"; of_string "world"; of_string "how";
     of_string "are"; of_string "you"].
Proof. vm_compute. reflexivity. Qed.

Example scenario_d :
  analyze_text ascii_lower (PyStr [])
  = Raise (ValueError "Input text cannot be empty").
Proof. reflexivity. Qed.

Example scenario_e :
  analyze_text ascii_lower PyNone = Raise (TypeError "Input must be a string").
Proof. reflexivity. Qed.

Example scenario_f :
  analyze_text ascii_lower (PyStr (of_string "..."))
  = Raise (ValueError "Input text contains no valid words").
Proof. vm_compute. reflexivity. Qed.

Example interior_apostrophe :
  strip is_punct (of_string "(don't!)") = of_string "don't".
Proof. vm_compute. reflexivity. Qed.

(** 41 characters in 11 words: the average is the binary64 nearest to
    3.73. *)
Example scenario_a_average :
  exists r, analyze_text ascii_lower scenario_a = Ok r
    /\ average_word_length r = Float.mk false 8399213305045975 (-51).
Proof. eexists. split; vm_compute; reflexivity. Qed.

End Spec.

(** ** Tokenization: how [split] treats whitespace *)

Module SplitFacts.
Import Str Py TextAnalyzer Notions StrFacts.

Lemma split_from_flush cur :
  split_from cur [] = if truthy cur then [rev cur] else [].
Proof. reflexivity. Qed.

Lemma split_from_space cur c (s : str) :
  isspace c = true ->
  split_from cur (c :: s) = split_from cur [] ++ split s.
Proof.
  intros Hc. cbn [split_from]. rewrite Hc. unfold split.
  destruct (truthy cur); reflexivity.
Qed.

Lemma split_leading (ws b : str) :
  Forall (fun c => isspace c = true) ws -> split (ws ++ b) = split b.
Proof.
  induction 1 as [|c ws Hc _ IH]; [reflexivity|].
  unfold split in *. simpl. rewrite Hc. exact IH.
Qed.

Lemma split_from_app_space cur (a ws b : str) :
  Forall (fun c => isspace c = true) ws -> ws <> [] ->
  split_from cur (a ++ ws ++ b) = split_from cur a ++ split b.
Proof.
  intros Hws Hne. revert cur. induction a as [|x a IH]; intros cur.
  - destruct ws as [|c ws]; [congruence|].
    inversion Hws as [|? ? Hc Hws']; subst.
    cbn [app]. rewrite (split_from_space cur c _ Hc).
    rewrite (split_leading ws b Hws'). reflexivity.
  - cbn [app split_from]. destruct (isspace x).
    + destruct (truthy cur); cbn [app]; rewrite IH; reflexivity.
    + apply IH.
Qed.

Lemma split_app_space (a ws b : str) :
  Forall (fun c => isspace c = true) ws -> ws <> [] ->
  split (a ++ ws ++ b) = split a ++ split b.
Proof. apply split_from_app_space. Qed.

Lemma split_from_trailing cur (a ws : str) :
  Forall (fun c => isspace c = true) ws ->
  split_from cur (a ++ ws) = split_from cur a.
Proof.
  intros Hws. destruct ws as [|c ws].
  - rewrite app_nil_r. reflexivity.
  - rewrite <- (app_nil_r (c :: ws)).
    rewrite split_from_app_space by (assumption || discriminate).
    apply app_nil_r.
Qed.

(** The tokens hold the characters that are not whitespace, in order. *)
Lemma split_from_concat cur (s : str) :
  concat (split_from cur s)
  = rev cur ++ List.filter (fun c => negb (isspace c)) s.
Proof.
  revert cur. induction s as [|c s IH]; intros cur; cbn [split_from List.filter].
  - destruct cur as [|a cur]; cbn [truthy concat].
    + reflexivity.
    + rewrite !app_nil_r. reflexivity.
  - destruct (isspace c); cbn [negb].
    + destruct cur as [|a cur]; cbn [truthy concat]; rewrite IH; reflexivity.
    + rewrite IH. cbn [rev]. rewrite <- app_assoc. reflexivity.
Qed.

(** The emptiness test of line 34 is a test on the tokens. *)
Lemma blank_test (t : str) :
  negb (truthy t) || negb (truthy (strip isspace t)) = negb (truthy (split t)).
Proof.
  destruct (truthy (strip isspace t)) eqn:Hs.
  - assert (Hns : ~ Forall (fun c => isspace c = true) t).
    { intros F. apply strip_nil in F. rewrite F in Hs. discriminate. }
    assert (Ht : truthy t = true).
    { destruct t; [exfalso; apply Hns; constructor | reflexivity]. }
    assert (Hsp : truthy (split t) = true).
    { apply truthy_true. intros E. apply Hns, split_nil, E. }
    rewrite Ht, Hsp. reflexivity.
  - apply truthy_false, strip_nil, split_nil in Hs.
    rewrite Hs, orb_true_r. reflexivity.
Qed.

Section Tokens.
Variable lower : str -> str.

(** The outcome of a call depends on the text through its tokens only. *)
Lemma analyze_text_split (t1 t2 : str) :
  split t1 = split t2 ->
  analyze_text lower (PyStr t1) = analyze_text lower (PyStr t2).
Proof.
  intros E. unfold analyze_text. rewrite !blank_test, E. reflexivity.
Qed.

End Tokens.

End SplitFacts.

(** ** Bounds on the rounded quotient *)

Module FloatBounds.
Import Float FloatFacts.

Lemma at_least_Q (x : float) (L : Z) :
  at_least x L -> (inject_Z L <= to_Q x)%Q.
Proof.
  destruct x as [sg m e]. unfold at_least, to_Q. simpl.
  intros [-> H]. destruct (Z.leb_spec 0 e) as [He|He].
  - rewrite Z.max_l, Z.max_r in H by lia.
    unfold Qle. simpl. rewrite Z.pow_0_r in H. lia.
  - rewrite Z.max_r, Z.max_l in H by lia.
    assert (0 < 2 ^ (- e)) by (apply Z.pow_pos_nonneg; lia).
    unfold Qle. simpl. rewrite Z2Pos.id by assumption.
    rewrite Z.pow_0_r in H. lia.
Qed.

Lemma at_most_Q (x : float) (L : Z) :
  at_most x L -> (to_Q x <= inject_Z L)%Q.
Proof.
  destruct x as [sg m e]. unfold at_most, to_Q. simpl.
  intros [-> H]. destruct (Z.leb_spec 0 e) as [He|He].
  - rewrite (Z.max_r 0 e), (Z.max_l 0 (- e)) in H by lia.
    unfold Qle. simpl. rewrite Z.pow_0_r in H. lia.
  - rewrite (Z.max_l 0 e), (Z.max_r 0 (- e)) in H by lia.
    assert (0 < 2 ^ (- e)) by (apply Z.pow_pos_nonneg; lia).
    unfold Qle. simpl. rewrite Z2Pos.id by assumption.
    rewrite Z.pow_0_r in H. lia.
Qed.

Lemma rne_upper (num den q : Z) :
  0 < den -> num <= q * den -> rne num den <= q.
Proof.
  intros Hden Hq. unfold rne.
  pose proof (Z.div_mod num den ltac:(lia)) as Hdm.
  pose proof (Z.mod_pos_bound num den Hden) as Hr.
  destruct (Z.compare_spec (2 * (num mod den)) den) as [E|E|E].
  - assert (num / den < q) by nia. destruct (Z.even _); lia.
  - nia.
  - assert (num / den < q) by nia. lia.
Qed.

(** A normalised value as a fraction. *)
Lemma scaled_at_least (m s L : Z) :
  0 <= s -> L * 2 ^ s <= m -> at_least (mk false m (- s)) L.
Proof.
  intros Hs H. split; [reflexivity|]. simpl.
  rewrite Z.opp_involutive, (Z.max_r 0 s), (Z.max_l 0 (- s)) by lia.
  rewrite Z.pow_0_r. lia.
Qed.

Lemma scaled_at_most (m s L : Z) :
  0 <= s -> m <= L * 2 ^ s -> at_most (mk false m (- s)) L.
Proof.
  intros Hs H. split; [reflexivity|]. simpl.
  rewrite Z.opp_involutive, (Z.max_r 0 s), (Z.max_l 0 (- s)) by lia.
  rewrite Z.pow_0_r. lia.
Qed.

Lemma pow2_split (a b : Z) : 0 <= a -> 0 <= b -> 2 ^ (a + b) = 2 ^ a * 2 ^ b.
Proof. intros. apply Z.pow_add_r; assumption. Qed.

(** Rounding a quotient that lies between two integers below [2^53] stays
    between them. *)
Lemma rnd_pos_between (n d lo hi : Z) :
  0 < d -> 1 <= lo -> hi < 2 ^ 53 ->
  lo * d <= n -> n <= hi * d ->
  at_least (mk false (fst (rnd_pos n d)) (snd (rnd_pos n d))) lo
  /\ at_most (mk false (fst (rnd_pos n d)) (snd (rnd_pos n d))) hi.
Proof.
  intros Hd Hlo Hhi Hn1 Hn2.
  assert (Hdn : d <= n) by nia.
  unfold rnd_pos.
  destruct (binade_of_quotient n d Hd Hdn) as [He Hle].
  set (e := if _ <? _ then _ else _) in *.
  assert (He52 : e <= 52).
  { destruct (Z.le_gt_cases e 52) as [?|Hgt]; [assumption|]. exfalso.
    assert (2 ^ 53 <= 2 ^ e) by (apply Z.pow_le_mono_r; lia).
    assert (d * 2 ^ e <= hi * d) by lia. nia. }
  rewrite (Z.max_r 0 (52 - e)), (Z.max_l 0 (- (52 - e))) by lia.
  rewrite Z.pow_0_r, Z.mul_1_r.
  set (s := 52 - e) in *.
  assert (Hs : 0 <= s) by (unfold s; lia).
  assert (Hps : 0 < 2 ^ s) by (apply Z.pow_pos_nonneg; lia).
  set (m0 := rne (n * 2 ^ s) d).
  assert (Hm1 : lo * 2 ^ s <= m0) by (apply rne_lower; [assumption | nia]).
  assert (Hm2 : m0 <= hi * 2 ^ s) by (apply rne_upper; [assumption | nia]).
  destruct (Z.eqb_spec m0 (2 ^ 53)) as [E|E]; cbn [fst snd].
  - assert (Hs1 : 1 <= s).
    { destruct (Z.eq_dec s 0) as [E0|]; [|lia].
      rewrite E0, Z.pow_0_r in Hm2. lia. }
    replace (e + 1 - 52) with (- (s - 1)) by (unfold s; lia).
    assert (Hp : 2 ^ s = 2 * 2 ^ (s - 1)).
    { replace s with (1 + (s - 1)) at 1 by lia.
      rewrite pow2_split by lia. reflexivity. }
    assert (H53 : 2 ^ 53 = 2 * 2 ^ 52) by reflexivity.
    split; [apply scaled_at_least | apply scaled_at_most]; lia.
  - replace (e - 52) with (- s) by (unfold s; lia).
    split; [apply scaled_at_least | apply scaled_at_most]; assumption.
Qed.

Lemma rnd_between (n d lo hi : Z) :
  0 < d -> 1 <= lo -> hi < 2 ^ 53 ->
  lo * d <= n -> n <= hi * d ->
  at_least (rnd false n d) lo /\ at_most (rnd false n d) hi.
Proof.
  intros Hd Hlo Hhi Hn1 Hn2. unfold rnd.
  destruct (Z.eqb_spec n 0) as [E|_]; [nia|].
  pose proof (rnd_pos_between n d lo hi Hd Hlo Hhi Hn1 Hn2) as H.
  destruct (rnd_pos n d) as [m e]. exact H.
Qed.

Lemma round2_between (x : float) (lo hi : Z) :
  1 <= lo -> hi < 2 ^ 53 ->
  at_least x lo -> at_most x hi ->
  at_least (round x 2) lo /\ at_most (round x 2) hi.
Proof.
  intros Hlo Hhi [Hs H1] [_ H2]. unfold round. rewrite Hs.
  change (10 ^ 2) with 100.
  assert (0 < 2 ^ Z.max 0 (- expo x)) by (apply Z.pow_pos_nonneg; lia).
  apply rnd_between; try assumption; try lia.
  - apply rne_lower; [assumption | lia].
  - apply rne_upper; [assumption | lia].
Qed.

(** [round(a / b, 2)] for a quotient between two integers. *)
Lemma rounded_quotient_between (a b lo hi : Z) :
  0 < b -> 1 <= lo -> hi < 2 ^ 53 ->
  lo * b <= a -> a <= hi * b ->
  exists q, truediv a b = Py.Ok q
    /\ (inject_Z lo <= to_Q (round q 2) <= inject_Z hi)%Q.
Proof.
  intros Hb Hlo Hhi H1 H2. unfold truediv.
  destruct (Z.eqb_spec b 0) as [E|_]; [lia|].
  eexists. split; [reflexivity|].
  assert (Ha : 0 <= a) by nia.
  destruct (Z.ltb_spec a 0); [lia|]. destruct (Z.ltb_spec b 0); [lia|].
  cbn [xorb]. rewrite !Z.abs_eq by lia.
  destruct (rnd_between a b lo hi Hb Hlo Hhi H1 H2) as [G1 G2].
  destruct (round2_between _ lo hi Hlo Hhi G1 G2) as [R1 R2].
  split; [apply at_least_Q | apply at_most_Q]; assumption.
Qed.

End FloatBounds.

(** ** Further properties of [analyze_text] *)

Module CleanFacts.
Import Str Py TextAnalyzer Notions StrFacts PyFacts LoopFacts SplitFacts.

Lemma filter_nil_iff {A} (f : A -> bool) (l : list A) :
  List.filter f l = [] <-> Forall (fun x => f x = false) l.
Proof.
  induction l as [|x l IH]; simpl.
  - split; [constructor | reflexivity].
  - destruct (f x) eqn:Hx.
    + split; [discriminate | intros F; inversion F; congruence].
    + rewrite IH. split; [constructor; assumption | intros F; inversion F; assumption].
Qed.

Lemma Forall_filter_iff {A} (P : A -> Prop) (f : A -> bool) (l : list A) :
  Forall P (List.filter f l) <-> Forall (fun x => f x = true -> P x) l.
Proof.
  induction l as [|x l IH]; simpl.
  - split; constructor.
  - destruct (f x) eqn:Hx.
    + split; intros F; inversion F; subst; constructor; tauto.
    + rewrite IH. split; intros F.
      * constructor; [congruence | assumption].
      * inversion F; assumption.
Qed.

Lemma Forall_concat_iff {A} (P : A -> Prop) (ls : list (list A)) :
  Forall (Forall P) ls <-> Forall P (concat ls).
Proof.
  induction ls as [|l ls IH]; simpl.
  - split; constructor.
  - rewrite Forall_app, <- IH. split.
    + intros F. inversion F; auto.
    + intros [? ?]. constructor; assumption.
Qed.

Lemma survives_false (w : str) :
  survives w = false <-> Forall (fun c => is_punct c = true) w.
Proof.
  unfold survives. induction w as [|c w IH]; simpl.
  - split; [constructor | reflexivity].
  - destruct (is_punct c) eqn:Hc; simpl.
    + rewrite IH. split; [constructor; assumption | intros F; inversion F; assumption].
    + split; [discriminate | intros F; inversion F; congruence].
Qed.

(** A token is kept by the cleaning loop exactly when it survives. *)
Lemma strip_truthy (w : str) : truthy (strip is_punct w) = survives w.
Proof.
  destruct (survives w) eqn:Hs.
  - apply truthy_true. intros E. apply strip_nil, survives_false in E. congruence.
  - apply truthy_false, strip_nil, survives_false, Hs.
Qed.

Lemma filter_map_comm {A B} (f : A -> B) (p : B -> bool) (l : list A) :
  List.filter p (List.map f l) = List.map f (List.filter (fun x => p (f x)) l).
Proof.
  induction l as [|x l IH]; simpl; [reflexivity|].
  destruct (p (f x)); simpl; rewrite IH; reflexivity.
Qed.

Section Clean.
Variable lower : str -> str.

Lemma clean_words_survivors (words : list str) :
  clean_words lower words
  = List.map (fun w => lower (strip is_punct w)) (List.filter survives words).
Proof.
  rewrite clean_words_eq, filter_map_comm, map_map. f_equal.
  apply filter_ext. intros w. apply strip_truthy.
Qed.

Lemma clean_words_app (ws1 ws2 : list str) :
  clean_words lower (ws1 ++ ws2) = clean_words lower ws1 ++ clean_words lower ws2.
Proof. rewrite !clean_words_survivors, List.filter_app, List.map_app. reflexivity. Qed.

Lemma clean_words_nil (words : list str) :
  clean_words lower words = []
  <-> Forall (Forall (fun c => is_punct c = true)) words.
Proof.
  rewrite clean_words_survivors. split.
  - intros E. apply map_eq_nil, filter_nil_iff in E.
    eapply Forall_impl; [exact E|]. intros w. apply survives_false.
  - intros F. replace (List.filter survives words) with (@nil (list N)); [reflexivity|].
    symmetry. apply filter_nil_iff.
    eapply Forall_impl; [exact F|]. intros w. apply survives_false.
Qed.

(** No token is left exactly when every character of the text is
    whitespace or punctuation. *)
Lemma cleaned_tokens_nil (t : str) :
  cleaned_tokens lower t = []
  <-> Forall (fun c => is_word_char c = false) t.
Proof.
  unfold cleaned_tokens. rewrite clean_words_nil, Forall_concat_iff.
  unfold split. rewrite split_from_concat. cbn [rev app].
  rewrite Forall_filter_iff. apply Forall_iff. intros c.
  unfold is_word_char. destruct (isspace c), (is_punct c); simpl; intuition congruence.
Qed.

End Clean.

End CleanFacts.

(** ** Counting, order and letter case *)

Module CountFacts.
Import Str Py TextAnalyzer Notions StrFacts PyFacts LoopFacts SplitFacts CleanFacts.

Lemma get0_count_words (l : list str) k :
  get0 (count_words l) k = occurrences k l.
Proof.
  unfold get0. rewrite count_words_lookup.
  destruct (Z.eqb_spec (occurrences k l) 0) as [E|_]; simpl; congruence.
Qed.

Lemma occurrences_app k (l1 l2 : list str) :
  occurrences k (l1 ++ l2) = occurrences k l1 + occurrences k l2.
Proof.
  unfold occurrences, len. rewrite List.filter_app, length_app. lia.
Qed.

Lemma occurrences_le_len k (l : list str) : occurrences k l <= len l.
Proof.
  unfold occurrences, len.
  pose proof (filter_length_bound (fun x => bool_decide (x = k)) l). lia.
Qed.

Lemma len_app {A} (l1 l2 : list A) : len (l1 ++ l2) = len l1 + len l2.
Proof. unfold len. rewrite length_app. lia. Qed.

Lemma len_map {A B} (g : A -> B) (l : list A) : len (List.map g l) = len l.
Proof. unfold len. rewrite length_map. reflexivity. Qed.

Lemma sum_bounds (xs : list Z) lo hi :
  Forall (fun x => lo <= x <= hi) xs ->
  lo * len xs <= sum xs <= hi * len xs.
Proof.
  induction 1 as [|x xs Hx _ IH].
  - unfold sum, len. simpl. lia.
  - rewrite sum_cons. unfold len in *. simpl length. nia.
Qed.

Lemma sum_perm (l1 l2 : list Z) : Permutation l1 l2 -> sum l1 = sum l2.
Proof.
  induction 1 as [| x l l' _ IH | x y l | l l' l'' _ IH1 _ IH2].
  - reflexivity.
  - rewrite !sum_cons, IH. reflexivity.
  - rewrite !sum_cons. lia.
  - congruence.
Qed.

Lemma filter_perm {A} (f : A -> bool) (l1 l2 : list A) :
  Permutation l1 l2 -> Permutation (List.filter f l1) (List.filter f l2).
Proof.
  induction 1 as [| x l l' _ IH | x y l | l l' l'' _ IH1 _ IH2]; simpl.
  - constructor.
  - destruct (f x); [constructor|]; exact IH.
  - destruct (f x), (f y); try reflexivity. apply perm_swap.
  - etransitivity; eassumption.
Qed.

Lemma len_perm {A} (l1 l2 : list A) : Permutation l1 l2 -> len l1 = len l2.
Proof. intros H. unfold len. rewrite (Permutation_length H). reflexivity. Qed.

Lemma occurrences_perm k (l1 l2 : list str) :
  Permutation l1 l2 -> occurrences k l1 = occurrences k l2.
Proof. intros H. apply len_perm, filter_perm, H. Qed.

Lemma count_words_perm (l1 l2 : list str) :
  Permutation l1 l2 -> count_words l1 = count_words l2.
Proof.
  intros H. apply map_eq. intros k.
  rewrite !count_words_lookup, (occurrences_perm k l1 l2 H). reflexivity.
Qed.

Lemma max_perm (l1 l2 : list Z) m1 m2 :
  Permutation l1 l2 -> max l1 = Ok m1 -> max l2 = Ok m2 -> m1 = m2.
Proof.
  intros H H1 H2.
  destruct (max_spec _ _ H1) as [I1 F1]. destruct (max_spec _ _ H2) as [I2 F2].
  rewrite List.Forall_forall in F1, F2.
  pose proof (F2 m1 (Permutation_in _ H I1)).
  pose proof (F1 m2 (Permutation_in _ (Permutation_sym H) I2)). lia.
Qed.

Lemma count_loop_size (ws : list str) (d : gmap (list N) Z) :
  (size (fold_left count_step ws d) <= size d + length ws)%nat.
Proof.
  revert d. induction ws as [|w ws IH]; intros d; simpl; [lia|].
  etransitivity; [apply IH|]. unfold count_step.
  rewrite map_size_insert. destruct (d !! w); simpl; lia.
Qed.

Lemma count_words_size (ws : list str) :
  (size (count_words ws) <= length ws)%nat.
Proof.
  unfold count_words. pose proof (count_loop_size ws ∅) as H.
  rewrite map_size_empty in H. exact H.
Qed.

Lemma NoDup_keys_size (l : list str) (d : gmap (list N) Z) :
  NoDup l -> (forall k, k ∈ l -> is_Some (d !! k)) ->
  (length l <= size d)%nat.
Proof.
  intros Hnd Hin.
  rewrite <- (size_list_to_set (C := gset (list N)) l Hnd).
  rewrite <- (size_dom (D := gset (list N)) d).
  apply subseteq_size. intros k Hk.
  apply elem_of_list_to_set in Hk. apply elem_of_dom, Hin, Hk.
Qed.

(** Mapping the characters through a function that respects the character
    classes. *)
Section CharMap.
Variable f : char -> char.

Lemma truthy_map {A B} (g : A -> B) (l : list A) :
  truthy (List.map g l) = truthy l.
Proof. destruct l; reflexivity. Qed.

Lemma lstrip_map (p : char -> bool) (s : str) :
  (forall c, p (f c) = p c) ->
  lstrip p (List.map f s) = List.map f (lstrip p s).
Proof.
  intros Hp. induction s as [|c s IH]; simpl; [reflexivity|].
  rewrite Hp. destruct (p c); [exact IH | reflexivity].
Qed.

Lemma strip_map (p : char -> bool) (s : str) :
  (forall c, p (f c) = p c) ->
  strip p (List.map f s) = List.map f (strip p s).
Proof.
  intros Hp. unfold strip, rstrip.
  rewrite (lstrip_map p s Hp), <- List.map_rev, (lstrip_map p _ Hp), List.map_rev.
  reflexivity.
Qed.

Lemma split_from_map cur (s : str) :
  (forall c, isspace (f c) = isspace c) ->
  split_from (List.map f cur) (List.map f s)
  = List.map (List.map f) (split_from cur s).
Proof.
  intros Hsp. revert cur. induction s as [|c s IH]; intros cur.
  - cbn [List.map split_from]. rewrite truthy_map.
    destruct (truthy cur); cbn [List.map]; [rewrite List.map_rev|]; reflexivity.
  - cbn [List.map split_from]. rewrite Hsp, truthy_map.
    destruct (isspace c).
    + destruct (truthy cur); cbn [List.map].
      * rewrite List.map_rev. f_equal. apply (IH []).
      * apply (IH []).
    + apply (IH (c :: cur)).
Qed.

Lemma clean_words_map (lower : str -> str) (words : list str) :
  (forall c, is_punct (f c) = is_punct c) ->
  (forall w, lower (List.map f w) = lower w) ->
  clean_words lower (List.map (List.map f) words) = clean_words lower words.
Proof.
  intros Hp Hl. rewrite !clean_words_eq, !map_map.
  induction words as [|w words IH]; simpl; [reflexivity|].
  rewrite (strip_map is_punct w Hp), truthy_map.
  destruct (truthy (strip is_punct w)); simpl; rewrite IH; [rewrite Hl|];
    reflexivity.
Qed.

End CharMap.

Lemma ascii_upper_isspace c : isspace (ascii_upper_char c) = isspace c.
Proof.
  unfold ascii_upper_char.
  destruct (N.leb_spec 97 c) as [H1|H1]; [|reflexivity].
  destruct (N.leb_spec c 122) as [H2|H2]; [|reflexivity].
  cbn [andb]. unfold isspace.
  repeat match goal with
         | |- context [N.leb ?a ?b] =>
             first [ rewrite (proj2 (N.leb_gt a b)) by lia
                   | rewrite (proj2 (N.leb_le a b)) by lia ]
         | |- context [N.eqb ?a ?b] =>
             rewrite (proj2 (N.eqb_neq a b)) by lia
         end.
  reflexivity.
Qed.

Lemma ascii_upper_is_punct c : is_punct (ascii_upper_char c) = is_punct c.
Proof.
  unfold ascii_upper_char.
  destruct (N.leb_spec 97 c) as [H1|H1]; [|reflexivity].
  destruct (N.leb_spec c 122) as [H2|H2]; [|reflexivity].
  cbn [andb]. unfold is_punct, punctuation. cbn [existsb].
  repeat match goal with
         | |- context [N.eqb ?a ?b] =>
             rewrite (proj2 (N.eqb_neq a b)) by lia
         end.
  reflexivity.
Qed.

Lemma ascii_lower_upper (w : str) :
  ascii_lower (List.map ascii_upper_char w) = ascii_lower w.
Proof.
  unfold ascii_lower. rewrite map_map. apply map_ext. intros c.
  unfold ascii_lower_char, ascii_upper_char.
  destruct (N.leb_spec 97 c) as [H1|H1];
    destruct (N.leb_spec c 122) as [H2|H2]; cbn [andb]; try reflexivity.
  rewrite (proj2 (N.leb_le 65 (c - 32))) by lia.
  rewrite (proj2 (N.leb_le (c - 32) 90)) by lia.
  rewrite (proj2 (N.leb_gt c 90)) by lia.
  rewrite andb_false_r. cbn [andb]. lia.
Qed.

End CountFacts.

Module Extra.
Import Str Py TextAnalyzer Notions StrFacts PyFacts LoopFacts FloatFacts.
Import SplitFacts CleanFacts CountFacts FloatBounds Spec.

Lemma not_all_false {A} (f : A -> bool) (l : list A) :
  ~ Forall (fun x => f x = false) l <-> Exists (fun x => f x = true) l.
Proof.
  induction l as [|x l IH].
  - split; [intros H; exfalso; apply H; constructor | intros H; inversion H].
  - split.
    + intros H. destruct (f x) eqn:Hx; [left; exact Hx|].
      right. apply IH. intros F. apply H. constructor; assumption.
    + intros H F. inversion F as [|? ? Hx Fl]; subst.
      inversion H as [? ? Hx'|? ? Hl]; subst; [congruence|].
      apply IH in Hl. contradiction.
Qed.

Section Properties.
Variable lower : str -> str.

(** X1. The message of the ValueError tells the two failures apart: it is
    [Input text cannot be empty] exactly for a text that is empty or all
    whitespace, and [Input text contains no valid words] exactly for a text
    with some non-whitespace character in which every character is
    whitespace or punctuation. *)
Theorem value_error_messages (t : str) :
  (analyze_text lower (PyStr t)
     = Raise (ValueError "Input text cannot be empty")
   <-> Forall (fun c => isspace c = true) t)
  /\ (analyze_text lower (PyStr t)
        = Raise (ValueError "Input text contains no valid words")
      <-> ~ Forall (fun c => isspace c = true) t
          /\ Forall (fun c => is_word_char c = false) t).
Proof.
  destruct (analyze_text_str lower t)
    as [[Hs E] | [(Hs & Hc & E) | (Hs & Hc & r & E)]]; rewrite E.
  - split; [tauto|]. split; [discriminate | tauto].
  - split; [split; [discriminate | contradiction]|].
    apply (proj1 (cleaned_tokens_nil lower t)) in Hc. tauto.
  - split; [split; [discriminate | contradiction]|].
    split; [discriminate|]. intros [_ F].
    apply (proj2 (cleaned_tokens_nil lower t)) in F. contradiction.
Qed.

(** X2. A call on a string returns a result exactly when the text holds
    a character that is neither whitespace nor one of the stripped
    punctuation characters. *)
Theorem result_iff_word_char (t : str) :
  is_ok (analyze_text lower (PyStr t))
  <-> Exists (fun c => is_word_char c = true) t.
Proof.
  rewrite <- not_all_false, <- (cleaned_tokens_nil lower). unfold is_ok.
  destruct (analyze_text_str lower t)
    as [[Hs E] | [(Hs & Hc & E) | (Hs & Hc & r & E)]]; rewrite E.
  - split; [intros [? ?]; discriminate|]. intros H. exfalso. apply H.
    apply cleaned_tokens_nil. eapply Forall_impl; [exact Hs|].
    intros c Hc. unfold is_word_char. rewrite Hc. reflexivity.
  - split; [intros [? ?]; discriminate | contradiction].
  - split; [intros _; exact Hc | eauto].
Qed.

(** X3. Whitespace before and after the text is ignored: padding the text
    with whitespace on either side does not change the outcome. *)
Theorem surrounding_whitespace_ignored (ws1 t ws2 : str) :
  Forall (fun c => isspace c = true) ws1 ->
  Forall (fun c => isspace c = true) ws2 ->
  analyze_text lower (PyStr (ws1 ++ t ++ ws2)) = analyze_text lower (PyStr t).
Proof.
  intros H1 H2. apply analyze_text_split.
  rewrite split_leading by exact H1. unfold split.
  apply split_from_trailing. exact H2.
Qed.

(** X4. Runs of whitespace collapse: replacing one non-empty run of
    whitespace inside the text by another does not change the outcome. *)
Theorem whitespace_runs_collapse (a ws ws' b : str) :
  Forall (fun c => isspace c = true) ws -> ws <> [] ->
  Forall (fun c => isspace c = true) ws' -> ws' <> [] ->
  analyze_text lower (PyStr (a ++ ws ++ b))
  = analyze_text lower (PyStr (a ++ ws' ++ b)).
Proof.
  intros H1 N1 H2 N2. apply analyze_text_split.
  rewrite !split_app_space by assumption. reflexivity.
Qed.

(** X5. The raw tokens of line 39: each one is non-empty and free of
    whitespace, and read in order they are the text without its whitespace
    characters. *)
Theorem raw_tokens_spec (t : str) :
  Forall is_token (split t)
  /\ concat (split t) = List.filter (fun c => negb (isspace c)) t.
Proof.
  split; [apply split_tokens|]. unfold split. apply split_from_concat.
Qed.

(** X6. On success [word_count] is the number of raw tokens that hold a
    character outside the punctuation set; it never exceeds the number of
    raw tokens. *)
Theorem word_count_counts_survivors (text : object) (r : AnalysisResult) :
  analyze_text lower text = Ok r ->
  exists t, text = PyStr t
    /\ word_count r = len (List.filter survives (split t))
    /\ word_count r <= len (split t).
Proof.
  intros H. destruct (analyze_text_ok lower text r H)
    as (t & q & m & -> & _ & _ & _ & ->).
  exists t. split; [reflexivity|]. cbn [word_count].
  unfold cleaned_tokens. rewrite clean_words_survivors.
  unfold len. rewrite length_map.
  pose proof (filter_length_bound survives (split t)).
  split; [reflexivity | lia].
Qed.

(** The cleaned tokens of two texts joined by whitespace. *)
Lemma cleaned_tokens_join (a ws b : str) :
  Forall (fun c => isspace c = true) ws -> ws <> [] ->
  cleaned_tokens lower (a ++ ws ++ b)
  = cleaned_tokens lower a ++ cleaned_tokens lower b.
Proof.
  intros Hws Hne. unfold cleaned_tokens.
  rewrite split_app_space by assumption. apply clean_words_app.
Qed.

(** A text with a cleaned token is analysed successfully. *)
Lemma analyze_text_succeeds (t : str) :
  cleaned_tokens lower t <> [] -> exists r, analyze_text lower (PyStr t) = Ok r.
Proof.
  intros Hne. destruct (analyze_text_str lower t)
    as [[Hs E] | [(Hs & Hc & E) | (Hs & Hc & r & E)]].
  - exfalso. apply Hne. unfold cleaned_tokens.
    rewrite (proj2 (split_nil t) Hs). reflexivity.
  - contradiction.
  - eauto.
Qed.

(** X7. Analysing two texts joined by whitespace adds up: the word count,
    every frequency and the total number of characters of the joined text
    are the sums of those of the two texts. *)
Theorem joined_texts_add_up (a ws b : str) (ra rb : AnalysisResult) :
  Forall (fun c => isspace c = true) ws -> ws <> [] ->
  analyze_text lower (PyStr a) = Ok ra ->
  analyze_text lower (PyStr b) = Ok rb ->
  exists r, analyze_text lower (PyStr (a ++ ws ++ b)) = Ok r
    /\ word_count r = word_count ra + word_count rb
    /\ (forall k, get0 (word_frequency r) k
                  = get0 (word_frequency ra) k + get0 (word_frequency rb) k)
    /\ weighted_length (word_frequency r)
       = weighted_length (word_frequency ra)
         + weighted_length (word_frequency rb).
Proof.
  intros Hws Hne Ha Hb.
  destruct (analyze_text_ok lower _ _ Ha) as (a' & qa & ma & Ea & Hca & _ & _ & ->).
  destruct (analyze_text_ok lower _ _ Hb) as (b' & qb & mb & Eb & Hcb & _ & _ & ->).
  injection Ea as <-. injection Eb as <-.
  destruct (analyze_text_succeeds (a ++ ws ++ b)) as [r Hr].
  { rewrite cleaned_tokens_join by assumption.
    intros E. apply app_eq_nil in E as [E _]. contradiction. }
  exists r. split; [exact Hr|].
  destruct (analyze_text_ok lower _ _ Hr) as (t & q & m & Et & _ & _ & _ & ->).
  injection Et as <-. cbn [word_count word_frequency].
  rewrite cleaned_tokens_join by assumption.
  split; [apply len_app|]. split.
  - intros k. rewrite !get0_count_words. apply occurrences_app.
  - rewrite !count_words_weighted, List.map_app. apply sum_app.
Qed.

(** X8. The order of the words does not matter for the counts: if the raw
    tokens of one text are a rearrangement of those of another, both calls
    succeed or neither does, and the results have the same word count,
    average, frequencies and set of longest words. *)
Theorem word_order_irrelevant (t1 t2 : str) (r1 : AnalysisResult) :
  Permutation (split t1) (split t2) ->
  analyze_text lower (PyStr t1) = Ok r1 ->
  exists r2, analyze_text lower (PyStr t2) = Ok r2
    /\ word_count r2 = word_count r1
    /\ average_word_length r2 = average_word_length r1
    /\ word_frequency r2 = word_frequency r1
    /\ (forall w, w ∈ longest_words r2 <-> w ∈ longest_words r1).
Proof.
  intros Hp H1.
  destruct (analyze_text_ok lower _ _ H1) as (t & q1 & m1 & Et & Hc1 & Hq1 & Hm1 & ->).
  injection Et as <-.
  assert (Hc : Permutation (cleaned_tokens lower t1) (cleaned_tokens lower t2)).
  { unfold cleaned_tokens. rewrite !clean_words_survivors.
    apply Permutation_map, filter_perm, Hp. }
  destruct (analyze_text_succeeds t2) as [r2 H2].
  { intros E. rewrite E in Hc. apply Permutation_nil_r in Hc. contradiction. }
  exists r2. split; [exact H2|].
  destruct (analyze_text_ok lower _ _ H2) as (t & q2 & m2 & Et & _ & Hq2 & Hm2 & ->).
  injection Et as <-. cbn [word_count average_word_length word_frequency longest_words].
  assert (Hlens : Permutation (List.map len (cleaned_tokens lower t1))
                              (List.map len (cleaned_tokens lower t2)))
    by (apply Permutation_map, Hc).
  rewrite <- (sum_perm _ _ Hlens), <- (len_perm _ _ Hc) in Hq2.
  rewrite Hq1 in Hq2. injection Hq2 as <-.
  pose proof (max_perm _ _ _ _ Hlens Hm1 Hm2) as <-.
  split; [symmetry; apply len_perm, Hc|]. split; [reflexivity|].
  split; [symmetry; apply count_words_perm, Hc|].
  intros w. rewrite !fromkeys_elem, !list_elem_of_In, !filter_In.
  split; intros [Hin Hl]; (split; [|exact Hl]).
  - exact (Permutation_in _ (Permutation_sym Hc) Hin).
  - exact (Permutation_in _ Hc Hin).
Qed.

(** X9. On success no frequency exceeds [word_count], there are at most
    [word_count] distinct keys, and [longest_words] has at most as many
    entries as [word_frequency] has keys. *)
Theorem frequency_bounds (text : object) (r : AnalysisResult) :
  analyze_text lower text = Ok r ->
  (forall k v, word_frequency r !! k = Some v -> v <= word_count r)
  /\ Z.of_nat (size (word_frequency r)) <= word_count r
  /\ (length (longest_words r) <= size (word_frequency r))%nat.
Proof.
  intros H. destruct (frequency_keys_of lower text r H) as (t & Et & Hkeys).
  destruct (analyze_text_ok lower text r H) as (t' & q & m & Et' & _ & _ & _ & Er).
  rewrite Et in Et'. injection Et' as <-. subst r.
  cbn [word_count word_frequency longest_words] in *.
  split; [|split].
  - intros k v Hv. rewrite count_words_lookup in Hv.
    destruct (Z.eqb_spec (occurrences k (cleaned_tokens lower t)) 0);
      [discriminate|]. injection Hv as <-. apply occurrences_le_len.
  - pose proof (count_words_size (cleaned_tokens lower t)). unfold len. lia.
  - apply NoDup_keys_size; [apply fromkeys_NoDup|].
    intros k Hk. apply Hkeys.
    rewrite fromkeys_elem, list_elem_of_In, filter_In in Hk.
    apply list_elem_of_In. tauto.
Qed.

(** X10. On success no key of [word_frequency] is longer than a longest
    word, and all longest words have the same length. *)
Theorem longest_words_dominate (text : object) (r : AnalysisResult) :
  analyze_text lower text = Ok r ->
  (forall w k, w ∈ longest_words r -> is_Some (word_frequency r !! k) ->
               len k <= len w)
  /\ (forall w1 w2, w1 ∈ longest_words r -> w2 ∈ longest_words r ->
                    len w1 = len w2).
Proof.
  intros H. destruct (frequency_keys_of lower text r H) as (t & Et & Hkeys).
  destruct (analyze_text_ok lower text r H) as (t' & q & m & Et' & _ & _ & Hm & Er).
  rewrite Et in Et'. injection Et' as <-. subst r.
  cbn [word_frequency longest_words] in *.
  destruct (max_spec _ _ Hm) as [_ Hall]. rewrite List.Forall_forall in Hall.
  assert (Hlen : forall w,
    w ∈ fromkeys (List.filter (fun word => len word =? m) (cleaned_tokens lower t))
    -> len w = m).
  { intros w Hw. rewrite fromkeys_elem, list_elem_of_In, filter_In, Z.eqb_eq in Hw.
    tauto. }
  split.
  - intros w k Hw Hk. rewrite (Hlen w Hw). apply Hall, in_map.
    apply list_elem_of_In, Hkeys, Hk.
  - intros w1 w2 H1 H2. rewrite (Hlen w1 H1), (Hlen w2 H2). reflexivity.
Qed.

(** X11. On success the average lies between the lengths of the shortest
    and the longest key: if every key of [word_frequency] has a length
    between [lo >= 1] and [hi < 2^53], so has [average_word_length]. *)
Theorem average_between_extremes (text : object) (r : AnalysisResult) (lo hi : Z) :
  analyze_text lower text = Ok r ->
  1 <= lo -> hi < 2 ^ 53 ->
  (forall k, is_Some (word_frequency r !! k) -> lo <= len k <= hi) ->
  (inject_Z lo <= Float.to_Q (average_word_length r) <= inject_Z hi)%Q.
Proof.
  intros H Hlo Hhi Hk.
  destruct (frequency_keys_of lower text r H) as (t & Et & Hkeys).
  destruct (analyze_text_ok lower text r H) as (t' & q & m & Et' & Hne & Hq & _ & Er).
  rewrite Et in Et'. injection Et' as <-. subst r.
  cbn [word_frequency average_word_length] in *.
  assert (Hall : Forall (fun x => lo <= x <= hi)
                        (List.map len (cleaned_tokens lower t))).
  { apply Forall_map, List.Forall_forall. intros w Hw.
    apply Hk, Hkeys, list_elem_of_In, Hw. }
  pose proof (sum_bounds _ _ _ Hall) as Hsum.
  rewrite len_map in Hsum.
  pose proof (len_pos _ Hne) as Hpos.
  destruct (rounded_quotient_between
              (sum (List.map len (cleaned_tokens lower t)))
              (len (cleaned_tokens lower t)) lo hi) as (q' & Hq' & Hb);
    try lia.
  rewrite Hq in Hq'. injection Hq' as <-. exact Hb.
Qed.

(** X12. The analysis ignores letter case: mapping the characters of the
    text through a function that keeps whitespace and punctuation classes
    and does not change what [lower] returns leaves the outcome unchanged. *)
Theorem letter_case_ignored (f : char -> char) (t : str) :
  (forall c, isspace (f c) = isspace c) ->
  (forall c, is_punct (f c) = is_punct c) ->
  (forall w, lower (List.map f w) = lower w) ->
  analyze_text lower (PyStr (List.map f t)) = analyze_text lower (PyStr t).
Proof.
  intros Hs Hp Hl. unfold analyze_text. rewrite !blank_test.
  assert (E : split (List.map f t) = List.map (List.map f) (split t))
    by exact (split_from_map f [] t Hs).
  rewrite E, truthy_map, (clean_words_map f lower _ Hp Hl). reflexivity.
Qed.

(** X13. A text with a single cleaned token [w] gives [word_count = 1],
    [longest_words = [w]], [word_frequency = {w: 1}] and, for
    [1 <= len(w) < 2^53], an average equal to [len(w)]. *)
Theorem single_token_result (t w : str) (r : AnalysisResult) :
  cleaned_tokens lower t = [w] ->
  analyze_text lower (PyStr t) = Ok r ->
  word_count r = 1
  /\ longest_words r = [w]
  /\ word_frequency r = {[ w := 1 ]}
  /\ (1 <= len w < 2 ^ 53 ->
      Qeq (Float.to_Q (average_word_length r)) (inject_Z (len w))).
Proof.
  intros Hc H.
  destruct (analyze_text_ok lower _ r H) as (t' & q & m & Et & _ & Hq & Hm & ->).
  injection Et as <-. rewrite Hc in *.
  cbn [word_count longest_words word_frequency average_word_length].
  cbn in Hm. injection Hm as <-.
  split; [reflexivity|]. split; [|split].
  - cbn [List.filter]. rewrite Z.eqb_refl. reflexivity.
  - unfold count_words. cbn [fold_left]. unfold count_step.
    rewrite lookup_empty. cbn. apply insert_empty.
  - intros [Hw1 Hw2].
    assert (Hs : sum (List.map len [w]) = len w)
      by (unfold sum; cbn [List.map fold_left]; lia).
    assert (Hl : len [w] = 1) by reflexivity.
    rewrite Hs, Hl in Hq.
    destruct (rounded_quotient_between (len w) 1 (len w) (len w)
                ltac:(lia) Hw1 Hw2 ltac:(lia) ltac:(lia))
      as (q' & Hq' & Hb1 & Hb2).
    rewrite Hq in Hq'. injection Hq' as <-.
    apply Qle_antisym; assumption.
Qed.

(** X14. When two texts are joined by whitespace and the longest words of
    the first are strictly longer than those of the second, the longest
    words of the joined text are those of the first. *)
Theorem longest_words_of_join (a ws b : str) (ra rb r : AnalysisResult) wa wb :
  Forall (fun c => isspace c = true) ws -> ws <> [] ->
  analyze_text lower (PyStr a) = Ok ra ->
  analyze_text lower (PyStr b) = Ok rb ->
  analyze_text lower (PyStr (a ++ ws ++ b)) = Ok r ->
  wa ∈ longest_words ra -> wb ∈ longest_words rb -> len wb < len wa ->
  longest_words r = longest_words ra.
Proof.
  intros Hws Hne Ha Hb Hr Hwa Hwb Hlt.
  destruct (analyze_text_ok lower _ _ Ha) as (a' & qa & ma & Ea & _ & _ & Hma & ->).
  destruct (analyze_text_ok lower _ _ Hb) as (b' & qb & mb & Eb & _ & _ & Hmb & ->).
  destruct (analyze_text_ok lower _ _ Hr) as (t & q & m & Et & _ & _ & Hm & ->).
  injection Ea as <-. injection Eb as <-. injection Et as <-.
  cbn [longest_words] in *.
  rewrite fromkeys_elem, list_elem_of_In, filter_In, Z.eqb_eq in Hwa, Hwb.
  destruct Hwa as [_ Hwa]. destruct Hwb as [_ Hwb].
  rewrite cleaned_tokens_join in * by assumption.
  rewrite List.map_app in Hm.
  destruct (max_spec _ _ Hma) as [Ia Fa]. destruct (max_spec _ _ Hmb) as [Ib Fb].
  destruct (max_spec _ _ Hm) as [I F].
  rewrite List.Forall_forall in Fa, Fb, F.
  assert (Em : m = ma).
  { pose proof (F ma (in_or_app _ _ _ (or_introl Ia))).
    apply in_app_or in I as [I | I]; [apply Fa in I | apply Fb in I]; lia. }
  subst m. rewrite List.filter_app. f_equal.
  replace (List.filter (fun word => len word =? ma) (cleaned_tokens lower b))
    with (@nil (list N)); [apply app_nil_r|].
  symmetry. apply filter_nil_iff, List.Forall_forall. intros w Hw.
  apply Z.eqb_neq. pose proof (Fb (len w) (in_map len _ _ Hw)). lia.
Qed.

End Properties.

(** *** The properties on concrete inputs *)

Lemma surrounding_whitespace_ignored_witness :
  analyze_text ascii_lower
    (PyStr ([32; 9]%N ++ of_string "Hello, world" ++ [10]%N))
  = analyze_text ascii_lower (PyStr (of_string "Hello, world")).
Proof.
  apply (surrounding_whitespace_ignored ascii_lower).
  - repeat constructor.
  - repeat constructor.
Defined.

Lemma whitespace_runs_collapse_witness :
  analyze_text ascii_lower
    (PyStr (of_string "Hello," ++ [32; 32; 10]%N ++ of_string "world"))
  = analyze_text ascii_lower
      (PyStr (of_string "Hello," ++ [32]%N ++ of_string "world")).
Proof.
  apply (whitespace_runs_collapse ascii_lower).
  - repeat constructor.
  - discriminate.
  - repeat constructor.
  - discriminate.
Defined.

Lemma word_count_counts_survivors_witness :
  exists t, sample = PyStr t
    /\ word_count sample_result = len (List.filter survives (split t))
    /\ word_count sample_result <= len (split t).
Proof.
  apply (word_count_counts_survivors ascii_lower sample sample_result).
  vm_compute. reflexivity.
Defined.

Lemma joined_texts_add_up_witness :
  exists r,
    analyze_text ascii_lower
      (PyStr (of_string "hello world" ++ [32]%N ++ of_string "Hello")) = Ok r
    /\ word_count r = 2 + 1.
Proof.
  destruct (joined_texts_add_up ascii_lower
              (of_string "hello world") [32]%N (of_string "Hello")
              (result_of (analyze_text ascii_lower (PyStr (of_string "hello world"))))
              (result_of (analyze_text ascii_lower (PyStr (of_string "Hello")))))
    as (r & Hr & Hc & _).
  - repeat constructor.
  - discriminate.
  - vm_compute. reflexivity.
  - vm_compute. reflexivity.
  - exists r. split; [exact Hr | exact Hc].
Defined.

Lemma word_order_irrelevant_witness :
  exists r2,
    analyze_text ascii_lower (PyStr (of_string "b b a")) = Ok r2
    /\ word_frequency r2
       = word_frequency
           (result_of (analyze_text ascii_lower (PyStr (of_string "b a b")))).
Proof.
  destruct (word_order_irrelevant ascii_lower
              (of_string "b a b") (of_string "b b a")
              (result_of (analyze_text ascii_lower (PyStr (of_string "b a b")))))
    as (r2 & H2 & _ & _ & Hf & _).
  - vm_compute. apply perm_skip, perm_swap.
  - vm_compute. reflexivity.
  - exists r2. split; [exact H2 | exact Hf].
Defined.

Lemma frequency_bounds_witness :
  Z.of_nat (size (word_frequency sample_result)) <= word_count sample_result
  /\ (length (longest_words sample_result)
      <= size (word_frequency sample_result))%nat.
Proof.
  apply (frequency_bounds ascii_lower sample sample_result).
  vm_compute. reflexivity.
Defined.

Lemma longest_words_dominate_witness :
  analyze_text ascii_lower sample = Ok sample_result
  /\ len (of_string "stop") <= len (of_string "don't").
Proof.
  split; [vm_compute; reflexivity|].
  apply (proj1 (longest_words_dominate ascii_lower sample sample_result
                  ltac:(vm_compute; reflexivity))).
  - vm_compute. apply elem_of_cons. left. reflexivity.
  - vm_compute. eexists. reflexivity.
Defined.

Lemma sample_key_lengths :
  forall k, is_Some (word_frequency sample_result !! k) -> 4 <= len k <= 5.
Proof.
  intros k Hk.
  destruct (frequency_keys_of ascii_lower sample sample_result sample_succeeds)
    as (t & Et & Hkeys).
  injection Et as <-. apply Hkeys in Hk. vm_compute in Hk.
  repeat (apply elem_of_cons in Hk as [-> | Hk]; [vm_compute; split; discriminate|]).
  apply elem_of_nil in Hk. contradiction.
Qed.

Lemma average_between_extremes_witness :
  (inject_Z 4 <= Float.to_Q (average_word_length sample_result) <= inject_Z 5)%Q.
Proof.
  apply (average_between_extremes ascii_lower sample sample_result 4 5).
  - vm_compute. reflexivity.
  - lia.
  - reflexivity.
  - exact sample_key_lengths.
Defined.

Lemma letter_case_ignored_witness :
  analyze_text ascii_lower
    (PyStr (List.map ascii_upper_char (of_string "Don't stop, (don't) STOP!")))
  = analyze_text ascii_lower (PyStr (of_string "Don't stop, (don't) STOP!")).
Proof.
  apply (letter_case_ignored ascii_lower ascii_upper_char).
  - exact ascii_upper_isspace.
  - exact ascii_upper_is_punct.
  - exact ascii_lower_upper.
Defined.

Lemma single_token_result_witness :
  word_frequency
    (result_of (analyze_text ascii_lower (PyStr (of_string " (Hello!) "))))
  = {[ of_string "hello" := 1 ]}.
Proof.
  apply (single_token_result ascii_lower (of_string " (Hello!) ")
                             (of_string "hello")).
  - vm_compute. reflexivity.
  - vm_compute. reflexivity.
Defined.

Lemma longest_words_of_join_witness :
  longest_words
    (result_of (analyze_text ascii_lower
                  (PyStr (of_string "big elephant" ++ [32]%N ++ of_string "cat dog"))))
  = longest_words
      (result_of (analyze_text ascii_lower (PyStr (of_string "big elephant")))).
Proof.
  apply (longest_words_of_join ascii_lower
           (of_string "big elephant") [32]%N (of_string "cat dog")
           (result_of (analyze_text ascii_lower (PyStr (of_string "big elephant"))))
           (result_of (analyze_text ascii_lower (PyStr (of_string "cat dog"))))
           _ (of_string "elephant") (of_string "cat")).
  - repeat constructor.
  - discriminate.
  - vm_compute. reflexivity.
  - vm_compute. reflexivity.
  - vm_compute. reflexivity.
  - vm_compute. apply elem_of_cons. left. reflexivity.
  - vm_compute. apply elem_of_cons. left. reflexivity.
  - vm_compute. reflexivity.
Defined.

End Extra.

(** ** What a call does to the store *)

Module StoreFacts.
Import Str Py TextAnalyzer Notions Machine.

Lemma run_alloc {B} (c : cell) (k : nat -> M B) (h : store) :
  bind (alloc c) k h = k (fresh (dom h)) (<[fresh (dom h) := c]> h).
Proof. reflexivity. Qed.

Lemma run_done {A B} (m : M A) (k : A -> M B) (h h' : store) x :
  m h = (Done x, h') -> bind m k h = k x h'.
Proof. intros E. unfold bind. rewrite E. reflexivity. Qed.

Lemma run_list_items {B} (a : nat) (items : list str) (k : list str -> M B) (h : store) :
  h !! a = Some (CList items) -> bind (list_items a) k h = k items h.
Proof.
  intros E. apply run_done. unfold list_items, bind, load. rewrite E.
  reflexivity.
Qed.

Lemma run_keys_items {B} (a : nat) (keys : list str) (k : list str -> M B) (h : store) :
  h !! a = Some (CKeys keys) -> bind (keys_items a) k h = k keys h.
Proof.
  intros E. apply run_done. unfold keys_items, bind, load. rewrite E.
  reflexivity.
Qed.

(** The address of a new object holds nothing in the store, nor in any
    store that the store extends. *)
Lemma fresh_unused (h : store) : h !! fresh (dom h) = None.
Proof. apply not_elem_of_dom, is_fresh. Qed.

Lemma fresh_unused_below (h0 h : store) :
  h0 ⊆ h -> h0 !! fresh (dom h) = None.
Proof.
  intros Hs. destruct (h0 !! fresh (dom h)) as [c|] eqn:E; [|reflexivity].
  pose proof (lookup_weaken _ _ _ _ E Hs) as E'.
  rewrite fresh_unused in E'. discriminate.
Qed.

Lemma fresh_differs (h : store) (a : nat) (c : cell) :
  h !! a = Some c -> fresh (dom h) <> a.
Proof. intros E <-. rewrite fresh_unused in E. discriminate. Qed.

Lemma alloc_extends (h0 h : store) c :
  h0 ⊆ h -> h0 ⊆ <[fresh (dom h) := c]> h.
Proof.
  intros Hs. apply insert_subseteq_r; [apply fresh_unused_below, Hs | exact Hs].
Qed.

(** The cleaning loop leaves in the list what [clean_step] computes, and
    touches nothing else. *)
Lemma clean_loop_run (lower : str -> str) (a : nat) (ws acc : list str)
    (h : store) :
  h !! a = Some (CList acc) ->
  for_each ws (fun word =>
                 let cleaned := strip is_punct word in
                 if truthy cleaned
                 then list_append a (lower cleaned)
                 else ret tt) h
  = (Done tt, <[a := CList (fold_left (clean_step lower) ws acc)]> h).
Proof.
  revert acc h. induction ws as [|w ws IH]; intros acc h E.
  - cbn [for_each fold_left]. unfold ret. rewrite insert_id by exact E.
    reflexivity.
  - cbn [for_each fold_left]. unfold clean_step at 2.
    destruct (truthy (strip is_punct w)).
    + erewrite run_done.
      2:{ unfold list_append. rewrite (run_list_items _ _ _ _ E). reflexivity. }
      rewrite (IH (acc ++ [lower (strip is_punct w)])) by apply lookup_insert_eq.
      rewrite insert_insert_eq. reflexivity.
    + erewrite run_done by reflexivity. apply IH, E.
Qed.

Lemma dict_get_run (a : nat) (k : str) (dflt : Z) (d : gmap (list N) Z)
    (h : store) :
  h !! a = Some (CFreq d) ->
  dict_get a k dflt h = (Done (default dflt (d !! k)), h).
Proof. intros E. unfold dict_get, bind, load. rewrite E. reflexivity. Qed.

Lemma dict_set_run (a : nat) (k : str) (v : Z) (d : gmap (list N) Z)
    (h : store) :
  h !! a = Some (CFreq d) ->
  dict_set a k v h = (Done tt, <[a := CFreq (<[k := v]> d)]> h).
Proof. intros E. unfold dict_set, bind, load. rewrite E. reflexivity. Qed.

(** The counting loop leaves in the dictionary what [count_step] computes,
    and touches nothing else. *)
Lemma count_loop_run (a : nat) (ws : list str) (d : gmap (list N) Z)
    (h : store) :
  h !! a = Some (CFreq d) ->
  for_each ws (fun word =>
                 run count <- dict_get a word 0;
                 dict_set a word (count + 1)) h
  = (Done tt, <[a := CFreq (fold_left count_step ws d)]> h).
Proof.
  revert d h. induction ws as [|w ws IH]; intros d h E.
  - cbn [for_each fold_left]. unfold ret. rewrite insert_id by exact E.
    reflexivity.
  - cbn [for_each fold_left].
    erewrite run_done.
    2:{ erewrite run_done by (apply dict_get_run, E).
        apply dict_set_run, E. }
    fold (count_step d w).
    rewrite (IH (count_step d w)) by apply lookup_insert_eq.
    rewrite insert_insert_eq. reflexivity.
Qed.

(** What is read from a store is read from every store that extends it. *)
Lemma view_extends (h h' : store) (o : outcome value) :
  h ⊆ h' -> view h o <> Stuck -> view h' o = view h o.
Proof.
  intros Hs. destruct o as [[o|a]| e |]; cbn [view]; try congruence.
  destruct (h !! a) as [c|] eqn:Ea; [|congruence].
  rewrite (lookup_weaken _ _ _ _ Ea Hs).
  destruct c as [ | | |wc avg l f]; try congruence.
  destruct (h !! l) as [cl|] eqn:El; [|congruence].
  rewrite (lookup_weaken _ _ _ _ El Hs).
  destruct cl as [items| | |]; try congruence.
  destruct (h !! f) as [cf|] eqn:Ef; [|congruence].
  rewrite (lookup_weaken _ _ _ _ Ef Hs). reflexivity.
Qed.

Section Call.
Variable lower : str -> str.

(** One call: the store it leaves extends the store it found, and what
    the caller sees is the outcome of the function of [TextAnalyzer]. *)
Lemma analyze_text_st_spec (text : value) (h h' : store) (o : outcome value) :
  analyze_text_st lower text h = (o, h') ->
  h ⊆ h' /\ view h' o = expected lower text.
Proof.
  intros E.
  destruct text as [x|a];
    [|injection E as <- <-; split; reflexivity].
  destruct x as [| b | z | q | t];
    try (injection E as <- <-; split; reflexivity).
  unfold analyze_text_st in E. unfold expected, analyze_text.
  destruct (negb (truthy t) || negb (truthy (strip isspace t)));
    [injection E as <- <-; split; reflexivity|].
  rewrite run_alloc in E. set (a1 := fresh (dom h)) in *.
  set (h1 := <[a1 := CList (split t)]> h) in *.
  assert (S1 : h ⊆ h1) by (apply alloc_extends; reflexivity).
  rewrite run_alloc in E. set (a2 := fresh (dom h1)) in *.
  assert (N2 : h !! a2 = None) by (apply fresh_unused_below, S1).
  assert (L1 : <[a2 := CList []]> h1 !! a1 = Some (CList (split t))).
  { rewrite lookup_insert_ne.
    - apply lookup_insert_eq.
    - apply (fresh_differs h1 a1 (CList (split t))), lookup_insert_eq. }
  rewrite (run_list_items _ _ _ _ L1) in E.
  erewrite run_done in E
    by (apply (clean_loop_run lower a2 (split t) []), lookup_insert_eq).
  fold (clean_words lower (split t)) in E.
  rewrite insert_insert_eq in E.
  set (cw := clean_words lower (split t)) in *.
  set (h3 := <[a2 := CList cw]> h1) in *.
  assert (S3 : h ⊆ h3) by (apply insert_subseteq_r; assumption).
  rewrite (run_list_items a2 cw) in E by apply lookup_insert_eq.
  destruct (negb (truthy cw));
    [injection E as <- <-; split; [exact S3 | reflexivity]|].
  destruct (Float.truediv (sum (List.map len cw)) (len cw)) as [quot|e];
    [|injection E as <- <-; split; [exact S3 | reflexivity]].
  cbn [lift Py.bind] in *. erewrite run_done in E by reflexivity.
  destruct (max (List.map len cw)) as [m|e];
    [|injection E as <- <-; split; [exact S3 | reflexivity]].
  cbn [lift Py.bind] in *. erewrite run_done in E by reflexivity.
  rewrite run_alloc in E. set (a3 := fresh (dom h3)) in *.
  set (lw0 := List.filter (fun word => len word =? m) cw) in *.
  set (h4 := <[a3 := CList lw0]> h3) in *.
  assert (S4 : h ⊆ h4) by (apply alloc_extends, S3).
  rewrite (run_list_items a3 lw0) in E by apply lookup_insert_eq.
  rewrite run_alloc in E. set (a4 := fresh (dom h4)) in *.
  set (h5 := <[a4 := CKeys (fromkeys lw0)]> h4) in *.
  assert (S5 : h ⊆ h5) by (apply alloc_extends, S4).
  rewrite (run_keys_items a4 (fromkeys lw0)) in E by apply lookup_insert_eq.
  rewrite run_alloc in E. set (a5 := fresh (dom h5)) in *.
  set (h6 := <[a5 := CList (fromkeys lw0)]> h5) in *.
  assert (S6 : h ⊆ h6) by (apply alloc_extends, S5).
  rewrite run_alloc in E. set (a6 := fresh (dom h6)) in *.
  assert (N6 : h !! a6 = None) by (apply fresh_unused_below, S6).
  assert (D65 : a6 <> a5).
  { apply (fresh_differs h6 a5 (CList (fromkeys lw0))), lookup_insert_eq. }
  erewrite run_done in E
    by (apply (count_loop_run a6 cw ∅), lookup_insert_eq).
  fold (count_words cw) in E. rewrite insert_insert_eq in E.
  set (h8 := <[a6 := CFreq (count_words cw)]> h6) in *.
  assert (S8 : h ⊆ h8) by (apply insert_subseteq_r; assumption).
  assert (L5 : h8 !! a5 = Some (CList (fromkeys lw0))).
  { unfold h8. rewrite lookup_insert_ne by exact D65. apply lookup_insert_eq. }
  assert (L6 : h8 !! a6 = Some (CFreq (count_words cw)))
    by apply lookup_insert_eq.
  rewrite run_alloc in E. set (a7 := fresh (dom h8)) in *.
  unfold ret in E. injection E as <- <-. cbn [view].
  split; [apply alloc_extends, S8|].
  rewrite lookup_insert_eq.
  rewrite !lookup_insert_ne by (eapply fresh_differs; eassumption).
  rewrite L5, L6. reflexivity.
Qed.

Lemma expected_not_stuck (text : value) : expected lower text <> Stuck.
Proof.
  destruct text as [o|a]; cbn [expected]; [|discriminate].
  destruct (analyze_text lower o); discriminate.
Qed.

End Call.

End StoreFacts.

(** ** Purity *)

Module Purity.
Import Str Py TextAnalyzer Notions Machine StoreFacts.

Section Calls.
Variable lower : str -> str.

(** C8. [analyze_text] is pure and deterministic.  Two calls on the same
    argument, from any two stores, show the caller the same outcome, a
    result or an exception, which is the outcome of the function of
    [TextAnalyzer]; a call changes no object that existed before it, so its
    argument is never mutated; and when the second call follows the first,
    the result of the first is still what it was. *)
Theorem analyze_text_pure (text : value) (h1 h2 h1' h2' : store)
    (o1 o2 : outcome value) :
  analyze_text_st lower text h1 = (o1, h1') ->
  analyze_text_st lower text h2 = (o2, h2') ->
  view h1' o1 = view h2' o2
  /\ view h1' o1 = expected lower text
  /\ h1 ⊆ h1'
  /\ h2 ⊆ h2'
  /\ (h2 = h1' -> view h2' o1 = view h1' o1).
Proof.
  intros E1 E2.
  destruct (analyze_text_st_spec lower text h1 h1' o1 E1) as [S1 V1].
  destruct (analyze_text_st_spec lower text h2 h2' o2 E2) as [S2 V2].
  split; [congruence|]. split; [exact V1|]. split; [exact S1|].
  split; [exact S2|].
  intros ->. apply view_extends; [exact S2|].
  rewrite V1. apply expected_not_stuck.
Qed.

End Calls.

Lemma analyze_text_pure_witness :
  view (snd (analyze_text_st ascii_lower (Imm sample)
               (snd (analyze_text_st ascii_lower (Imm sample) sample_store))))
       (fst (analyze_text_st ascii_lower (Imm sample)
               (snd (analyze_text_st ascii_lower (Imm sample) sample_store))))
  = Done sample_result
  /\ sample_store
     ⊆ snd (analyze_text_st ascii_lower (Imm sample) sample_store).
Proof.
  destruct (analyze_text_pure ascii_lower (Imm sample)
              sample_store
              (snd (analyze_text_st ascii_lower (Imm sample) sample_store))
              (snd (analyze_text_st ascii_lower (Imm sample) sample_store))
              (snd (analyze_text_st ascii_lower (Imm sample)
                      (snd (analyze_text_st ascii_lower (Imm sample) sample_store))))
              (fst (analyze_text_st ascii_lower (Imm sample) sample_store))
              (fst (analyze_text_st ascii_lower (Imm sample)
                      (snd (analyze_text_st ascii_lower (Imm sample) sample_store)))))
    as (Hsame & Hexp & Hframe & _ & _).
  - vm_compute. reflexivity.
  - vm_compute. reflexivity.
  - split; [|exact Hframe].
    rewrite <- Hsame, Hexp. vm_compute. reflexivity.
Defined.

End Purity.
